(** * gyp: toolchain discovery and command-line regeneration

    A shallow embedding of [pylib/gyp/__init__.py]: the platform triple,
    the executable locator, the toolchain identifier, the flag
    regeneration engine and the tool-path selection of [gyp_main],
    followed by the properties proved about them.

    Python values are given the types the code uses them at.  An exception
    is a value of [exn]; a function that can raise returns a [Res].  What
    the interpreter and the operating system supply (platform name,
    environment, file system, processes) is a [Host], which the functions
    take as their first argument.  Lists the caller shares with a
    generator live in a store. *)

From Stdlib Require Import String Ascii List ZArith Bool Arith Lia.
From Stdlib Require Import DecimalString DecimalZ DecimalPos.
Import ListNotations.

Local Open Scope string_scope.
Local Open Scope list_scope.

(* ================================================================== *)
(** * Part I: the program                                             *)
(* ================================================================== *)

(** ** Exceptions and results *)

Inductive exn : Type :=
| TypeError
| ValueError
| AttributeError
| OSError
| GypError (msg : string).

Inductive Res (A : Type) : Type :=
| Ok (a : A)
| Raise (e : exn).

Arguments Ok {A} a.
Arguments Raise {A} e.

Definition bind {A B : Type} (c : Res A) (k : A -> Res B) : Res B :=
  match c with
  | Ok a => k a
  | Raise e => Raise e
  end.

Notation "x <- c ;; k" := (bind c (fun x => k))
  (at level 61, c at next level, right associativity).

(** [[f(x) for x in xs]] for an [f] that can raise: the first exception
    ends the comprehension. *)
Fixpoint mapM {A B : Type} (f : A -> Res B) (xs : list A) : Res (list B) :=
  match xs with
  | [] => Ok []
  | x :: xs' => y <- f x ;; ys <- mapM f xs' ;; Ok (y :: ys)
  end.

(** ** Python strings *)

Module Py.

Definition LF : ascii := "010"%char.

Definition is_digit (c : ascii) : bool :=
  let n := nat_of_ascii c in ((48 <=? n) && (n <=? 57))%nat.

Definition is_alpha (c : ascii) : bool :=
  let n := nat_of_ascii c in
  (((65 <=? n) && (n <=? 90)) || ((97 <=? n) && (n <=? 122)))%nat.

(** [string.whitespace] of the C locale: space, TAB, LF, VT, FF, CR. *)
Definition is_space (c : ascii) : bool :=
  let n := nat_of_ascii c in ((n =? 32) || ((9 <=? n) && (n <=? 13)))%nat.

(** [s.startswith(p)] *)
Definition startswith (s p : string) : bool := String.prefix p s.

(** What follows the prefix [p] in [s], when [s] starts with [p]. *)
Fixpoint strip_prefix (p s : string) : option string :=
  match p with
  | EmptyString => Some s
  | String a p' =>
      match s with
      | EmptyString => None
      | String b s' => if Ascii.eqb a b then strip_prefix p' s' else None
      end
  end.

(** [s.split(sep)] for a one-character separator. *)
Fixpoint split (sep : ascii) (s : string) : list string :=
  match s with
  | EmptyString => [EmptyString]
  | String c r =>
      if Ascii.eqb c sep then EmptyString :: split sep r
      else match split sep r with
           | [] => [String c EmptyString]
           | h :: t => String c h :: t
           end
  end.

(** [s.split(sep, maxsplit)]: at most [maxsplit] cuts, from the left. *)
Fixpoint split_max (sep : ascii) (s : string) (maxsplit : nat)
  {struct s} : list string :=
  match s with
  | EmptyString => [EmptyString]
  | String c r =>
      match maxsplit with
      | 0 => [s]
      | S n =>
          if Ascii.eqb c sep then EmptyString :: split_max sep r n
          else match split_max sep r maxsplit with
               | [] => [String c EmptyString]
               | h :: t => String c h :: t
               end
      end
  end.

(** [s.count(c)] for a one-character [c]. *)
Fixpoint count (c : ascii) (s : string) : nat :=
  match s with
  | EmptyString => 0
  | String a r => (if Ascii.eqb a c then 1 else 0) + count c r
  end.

(** [sep.join(parts)] *)
Fixpoint join (sep : string) (parts : list string) : string :=
  match parts with
  | [] => EmptyString
  | [p] => p
  | p :: ps => p ++ sep ++ join sep ps
  end.

Fixpoint lstrip (s : string) : string :=
  match s with
  | EmptyString => EmptyString
  | String c r => if is_space c then lstrip r else s
  end.

Fixpoint rstrip (s : string) : string :=
  match s with
  | EmptyString => EmptyString
  | String c r =>
      match rstrip r with
      | EmptyString => if is_space c then EmptyString else String c EmptyString
      | r' => String c r'
      end
  end.

(** [s.strip()] *)
Definition strip (s : string) : string := rstrip (lstrip s).

(** The value of a string of decimal digits, most significant first,
    continuing from [acc]; [None] at the first character that is not a
    digit. *)
Fixpoint digits_value (acc : Z) (s : string) : option Z :=
  match s with
  | EmptyString => Some acc
  | String c r =>
      if is_digit c
      then digits_value (10 * acc + Z.of_nat (nat_of_ascii c - 48)) r
      else None
  end.

Definition unsigned_int (s : string) : Res Z :=
  match s with
  | EmptyString => Raise ValueError
  | _ => match digits_value 0 s with
         | Some z => Ok z
         | None => Raise ValueError
         end
  end.

(** [int(s)] for a byte string: surrounding whitespace is dropped, one
    sign is allowed, then at least one decimal digit and nothing else;
    anything else is a [ValueError]. *)
Definition int (s : string) : Res Z :=
  match strip s with
  | String "+" r => unsigned_int r
  | String "-" r => z <- unsigned_int r ;; Ok (- z)%Z
  | t => unsigned_int t
  end.

End Py.

(** ** Platform triple *)

Module Triple.

(** [collections.namedtuple('Triple', ('arch', 'os', 'env'))] *)
Record t : Type := Make { arch : string; os : string; env : string }.

(** [cls] applied to the unpacked list [x]: the constructor of the named
    tuple takes exactly three positional arguments and raises [TypeError]
    on any other number. *)
Definition of_list (x : list string) : Res t :=
  match x with
  | [a; o; e] => Ok (Make a o e)
  | _ => Raise TypeError
  end.

(** [__str__] *)
Definition str (self : t) : string :=
  arch self ++ "-" ++ os self ++ "-" ++ env self.

Definition parse (target : string) : Res t :=
  let x := Py.split_max "-" target 2 in
  of_list x.

(** [re.match(r'^i\d86$', arch)]: without [re.MULTILINE], [$] matches at
    the end of the string and before a newline that ends the string. *)
Definition match_i_d_86 (a : string) : bool :=
  match a with
  | String "i" (String d (String "8" (String "6" r))) =>
      Py.is_digit d
      && (String.eqb r EmptyString || String.eqb r (String Py.LF EmptyString))
  | _ => false
  end.

(** GNU normalization *)
Definition gnu (self : t) : t :=
  let '(Make arch os env) := self in
  let arch := if match_i_d_86 arch then "x86" else arch in
  let arch := if String.eqb arch "x64" then "x86_64" else arch in
  Make arch os env.

(** GYP normalization *)
Definition gyp (self : t) : t :=
  let '(Make arch os env) := self in
  let arch := if match_i_d_86 arch then "x86" else arch in
  let arch := if String.eqb arch "x86_64" then "x64" else arch in
  Make arch os env.

End Triple.

(** ** The host

    What the program asks of the interpreter and the operating system.
    Every function below takes the host it runs on. *)

Record Host : Type := {
  (** [sys.platform] *)
  sys_platform : string;
  (** [os.environ.get(name)] *)
  os_environ : string -> option string;
  (** [os.pathsep] *)
  os_pathsep : ascii;
  (** [os.curdir] *)
  os_curdir : string;
  (** [os.path.join(a, b)] *)
  os_path_join : string -> string -> string;
  (** [os.access(path, os.F_OK | os.X_OK)] *)
  os_access : string -> bool;
  (** [glob.glob(pattern)] *)
  glob_glob : string -> list string;
  (** [shlex.split(s)]; [ValueError] on an open quotation or a dangling
      escape *)
  shlex_split : string -> Res (list string);
  (** [subprocess.Popen(argv, stdout=PIPE, stdin=PIPE, stderr=PIPE)]
      followed by reading the pipes and waiting for the process: the text
      of (stdout, stderr).  [Popen] raises [OSError] when the process
      cannot be launched. *)
  Popen : list string -> Res (string * string);
  (** [repr] of a list of strings *)
  repr_list : list string -> string
}.

(** [os.getenv(name, default)] *)
Definition os_getenv (h : Host) (name default : string) : string :=
  match os_environ h name with
  | Some v => v
  | None => default
  end.

(** ** Version *)

(** [class Version(tuple)]: a tuple of integers; [()] is the empty one. *)
Definition Version : Type := list Z.

(** [Version] of [int(x) for x in text.split('.')] *)
Definition Version_of_text (text : string) : Res Version :=
  mapM Py.int (Py.split "." text).

(** ** Executable locator *)

Module Locator.

(** The caller's lists are objects in a store; a reference names one.
    Two references are the same object when they are equal. *)
Definition ref : Type := nat.
Definition Store : Type := ref -> list string.

Definition store_set (st : Store) (r : ref) (l : list string) : Store :=
  fun r' => if Nat.eqb r' r then l else st r'.

(** What [pathlist] is bound to: the list just made from [PATH], which
    only the generator holds, or the caller's own list. *)
Inductive pathlist : Type :=
| Own (l : list string)
| Shared (r : ref).

Definition read (st : Store) (p : pathlist) : list string :=
  match p with
  | Own l => l
  | Shared r => st r
  end.

(** [pathlist.insert(0, x)] *)
Definition insert0 (st : Store) (p : pathlist) (x : string)
  : Store * pathlist :=
  match p with
  | Own l => (st, Own (x :: l))
  | Shared r => (store_set st r (x :: st r), Shared r)
  end.

(** The frame of a generator suspended at [yield]: the three loop
    variables and where each of the three iterators stands. *)
Record Frame : Type := {
  f_names : ref;
  f_pathlist : pathlist;
  f_exts : list string;
  f_name_i : nat;        (* index the iterator over [names] reads next *)
  f_name : string;
  f_prefix_i : nat;      (* index the iterator over [pathlist] reads next *)
  f_prefix : string;
  f_suffixes : list string  (* what the iterator over [exts] has left *)
}.

(** A generator object: its body has not started, it is suspended at the
    [yield], or it has returned. *)
Inductive Generator : Type :=
| Created (names : ref) (paths : option ref)
| Suspended (f : Frame)
| Finished.

(** Calling a generator function runs none of its body: the call
    returns the generator object and the store is as it was. *)
Definition find_executables (st : Store) (names : ref) (paths : option ref)
  : Store * Generator :=
  (st, Created names paths).

Section Body.

Variable h : Host.

(** [for suffix in exts]: up to the first [yield]. *)
Fixpoint scan_exts (name prefix : string) (suffixes : list string)
  : option (string * list string) :=
  match suffixes with
  | [] => None
  | suffix :: rest =>
      let path := (os_path_join h prefix name ++ suffix)%string in
      if os_access h path then Some (path, rest)
      else scan_exts name prefix rest
  end.

(** [for prefix in pathlist], the iterator standing at index [j] with
    [ps] still to come. *)
Fixpoint scan_paths (exts : list string) (name : string)
  (ps : list string) (j : nat)
  : option (string * (nat * string * list string)) :=
  match ps with
  | [] => None
  | prefix :: ps' =>
      match scan_exts name prefix exts with
      | Some (path, rest) => Some (path, (S j, prefix, rest))
      | None => scan_paths exts name ps' (S j)
      end
  end.

(** [for name in names], the iterator standing at index [i] with [ns]
    still to come; each name starts a new iterator over [pl]. *)
Fixpoint scan_names (exts pl : list string) (ns : list string) (i : nat)
  : option (string * (nat * string * (nat * string * list string))) :=
  match ns with
  | [] => None
  | name :: ns' =>
      match scan_paths exts name pl 0 with
      | Some (path, inner) => Some (path, (S i, name, inner))
      | None => scan_names exts pl ns' (S i)
      end
  end.

(** The body up to the loops. *)
Definition prologue (st : Store) (paths : option ref)
  : Store * pathlist * list string :=
  let pathlist :=
    match paths with
    | None => Own (Py.split (os_pathsep h) (os_getenv h "PATH" EmptyString))
    | Some r => Shared r
    end in
  if Py.startswith (sys_platform h) "win" then
    let '(st, pathlist) := insert0 st pathlist (os_curdir h) in
    (st, pathlist,
     Py.split (os_pathsep h) (os_getenv h "PATHEXT" EmptyString))
  else (st, pathlist, [EmptyString]).

(** Running the loops from the top. *)
Definition enter (st : Store) (names : ref) (pl : pathlist)
  (exts : list string) : Generator * option string :=
  match scan_names exts (read st pl) (st names) 0 with
  | Some (path, (i, name, (j, prefix, rest))) =>
      (Suspended {| f_names := names; f_pathlist := pl; f_exts := exts;
                    f_name_i := i; f_name := name;
                    f_prefix_i := j; f_prefix := prefix;
                    f_suffixes := rest |},
       Some path)
  | None => (Finished, None)
  end.

(** Running on from the [yield]: the rest of the innermost loop, then
    the rest of the middle loop, then the rest of the outer one. *)
Definition resume (st : Store) (f : Frame) : Generator * option string :=
  match scan_exts (f_name f) (f_prefix f) (f_suffixes f) with
  | Some (path, rest) =>
      (Suspended {| f_names := f_names f; f_pathlist := f_pathlist f;
                    f_exts := f_exts f;
                    f_name_i := f_name_i f; f_name := f_name f;
                    f_prefix_i := f_prefix_i f; f_prefix := f_prefix f;
                    f_suffixes := rest |},
       Some path)
  | None =>
      let pl := read st (f_pathlist f) in
      match scan_paths (f_exts f) (f_name f)
              (skipn (f_prefix_i f) pl) (f_prefix_i f) with
      | Some (path, (j, prefix, rest)) =>
          (Suspended {| f_names := f_names f; f_pathlist := f_pathlist f;
                        f_exts := f_exts f;
                        f_name_i := f_name_i f; f_name := f_name f;
                        f_prefix_i := j; f_prefix := prefix;
                        f_suffixes := rest |},
           Some path)
      | None =>
          match scan_names (f_exts f) pl
                  (skipn (f_name_i f) (st (f_names f))) (f_name_i f) with
          | Some (path, (i, name, (j, prefix, rest))) =>
              (Suspended {| f_names := f_names f;
                            f_pathlist := f_pathlist f;
                            f_exts := f_exts f;
                            f_name_i := i; f_name := name;
                            f_prefix_i := j; f_prefix := prefix;
                            f_suffixes := rest |},
               Some path)
          | None => (Finished, None)
          end
      end
  end.

(** [next(g)]: the store and the generator afterwards, and the path
    yielded, or [None] for [StopIteration]. *)
Definition next (st : Store) (g : Generator)
  : Store * Generator * option string :=
  match g with
  | Created names paths =>
      let '(st, pl, exts) := prologue st paths in
      let '(g, r) := enter st names pl exts in
      (st, g, r)
  | Suspended f => let '(g, r) := resume st f in (st, g, r)
  | Finished => (st, Finished, None)
  end.

(** [list(g)], by at most [fuel] calls of [next]: the store and the
    generator afterwards and the paths yielded. *)
Fixpoint drain (fuel : nat) (st : Store) (g : Generator)
  : Store * Generator * list string :=
  match fuel with
  | 0 => (st, g, [])
  | S fuel' =>
      match next st g with
      | (st', g', None) => (st', g', [])
      | (st', g', Some path) =>
          let '(st'', g'', paths) := drain fuel' st' g' in
          (st'', g'', path :: paths)
      end
  end.

(** [next(find_executables(names, paths), None)], as [gyp_main] takes
    the first tool found. *)
Definition first_found (st : Store) (names : ref) (paths : option ref)
  : Store * Generator * option string :=
  let '(st, g) := find_executables st names paths in
  next st g.

(** The existing executable files among the candidates of one name in
    one directory. *)
Definition hits (name prefix : string) (suffixes : list string)
  : list string :=
  filter (os_access h)
    (map (fun suffix => (os_path_join h prefix name ++ suffix)%string)
       suffixes).

(** Names outermost, then directories, then suffixes. *)
Definition name_major (exts pl ns : list string) : list string :=
  flat_map (fun name => flat_map (fun prefix => hits name prefix exts) pl)
    ns.

(** The order the specification words: directories outermost, then
    names, then suffixes. *)
Definition directory_major (exts pl ns : list string) : list string :=
  flat_map (fun prefix => flat_map (fun name => hits name prefix exts) ns)
    pl.

(** What a generator has still to yield, read off its frame and the
    store. *)
Definition pending (st : Store) (g : Generator) : list string :=
  match g with
  | Created names paths =>
      let '(st', pl, exts) := prologue st paths in
      name_major exts (read st' pl) (st' names)
  | Suspended f =>
      let pl := read st (f_pathlist f) in
      hits (f_name f) (f_prefix f) (f_suffixes f)
      ++ flat_map (fun prefix => hits (f_name f) prefix (f_exts f))
           (skipn (f_prefix_i f) pl)
      ++ name_major (f_exts f) pl (skipn (f_name_i f) (st (f_names f)))
  | Finished => []
  end.

End Body.

End Locator.

(** ** Regular expressions of the identifier

    Each pattern of the source is a literal text followed by one or two
    greedy runs over a character class.  The character after a run is
    never in its class, so giving back part of a run cannot turn a failed
    match into a successful one: the longest run decides. *)

Module Re.

(** The longest prefix of [s] made of characters of [cls], and the rest. *)
Fixpoint span (cls : ascii -> bool) (s : string) : string * string :=
  match s with
  | EmptyString => (EmptyString, EmptyString)
  | String c r =>
      if cls c then let '(run, rest) := span cls r in (String c run, rest)
      else (EmptyString, s)
  end.

(** [[\d\.]] *)
Definition is_version_char (c : ascii) : bool :=
  Py.is_digit c || Ascii.eqb c ".".

(** [[A-Za-z0-9\-_]] *)
Definition is_word_char (c : ascii) : bool :=
  Py.is_alpha c || Py.is_digit c || Ascii.eqb c "-" || Ascii.eqb c "_".

(** [$] under [re.MULTILINE]: at the end of the text or before a newline. *)
Definition at_eol (s : string) : bool :=
  match s with
  | EmptyString => true
  | String c _ => Ascii.eqb c Py.LF
  end.

(** [literal([cls]+)] at the start of [s]: the run and what follows. *)
Definition literal_run (literal : string) (cls : ascii -> bool) (s : string)
  : option (string * string) :=
  match Py.strip_prefix literal s with
  | None => None
  | Some r =>
      match span cls r with
      | (EmptyString, _) => None
      | (run, rest) => Some (run, rest)
      end
  end.

(** The matches of a pattern that begins with [^], tried after each
    newline of [s]. *)
Fixpoint search_after_newlines {A : Type} (m : string -> option A)
  (s : string) : option A :=
  match s with
  | EmptyString => None
  | String c r =>
      if Ascii.eqb c Py.LF then
        match m r with
        | Some x => Some x
        | None => search_after_newlines m r
        end
      else search_after_newlines m r
  end.

(** [re.search('^...', s, re.MULTILINE)]: the first line start, from the
    left, at which the pattern matches. *)
Definition search_multiline {A : Type} (m : string -> option A) (s : string)
  : option A :=
  match m s with
  | Some x => Some x
  | None => search_after_newlines m s
  end.

(** [Microsoft \(R\) C/C\+\+ Optimizing Compiler Version ([\d\.]+) for
    ([A-Za-z0-9\-_]+)] at the start of [s]: groups 1 and 2. *)
Definition msvc_banner (s : string) : option (string * string) :=
  match literal_run "Microsoft (R) C/C++ Optimizing Compiler Version "
          is_version_char s with
  | None => None
  | Some (version, rest) =>
      match literal_run " for " is_word_char rest with
      | None => None
      | Some (arch, _) => Some (version, arch)
      end
  end.

(** [gcc version ([\d\.]+)] at the start of [s]: group 1. *)
Definition gcc_version (s : string) : option string :=
  option_map fst (literal_run "gcc version " is_version_char s).

(** [Target: ([A-Za-z0-9\-_]+)$] at the start of [s]: group 1. *)
Definition target_line (s : string) : option string :=
  match literal_run "Target: " is_word_char s with
  | Some (target, rest) => if at_eol rest then Some target else None
  | None => None
  end.

(** [re.match(r'GNU Make ([\d\.]+)', s)]: group 1. *)
Definition gnu_make (s : string) : option string :=
  option_map fst (literal_run "GNU Make " is_version_char s).

(** A matcher that looks no further than the end of the line it starts
    on: what follows the first newline does not change its answer. *)
Definition line_local {A : Type} (m : string -> option A) : Prop :=
  forall a x y : string,
    m (a ++ String Py.LF x)%string = m (a ++ String Py.LF y)%string.

(** [re.match(r'usage: ninja', s)] *)
Definition usage_ninja (s : string) : bool :=
  Py.startswith s "usage: ninja".

End Re.

(** ** Toolchain identifier *)

Notation "' pat <- c ;; k" :=
  (bind c (fun x => match x with pat => k end))
  (at level 61, pat pattern, c at next level, right associativity).

Definition unknown_triple : Triple.t :=
  Triple.Make "unknown" "unknown" "unknown".

Section Identifier.

Variable h : Host.

(** Returns (type, version, target); [type] is one of gcc, msvc and
    unknown. *)
Definition identify_cc (path : string)
  : Res (string * Version * Triple.t) :=
  (* To detect MSVC, run command with no arguments *)
  '(_, o) <- Popen h [path] ;;
  match Re.search_multiline Re.msvc_banner o with
  | Some (m1, m2) =>
      version <- Version_of_text m1 ;;
      let arch := m2 in
      let os := "win" in
      let env := "msvc" in
      Ok ("msvc", version, Triple.Make arch os env)
  | None =>
      (* If this fails, try running CC -v *)
      '(_, o) <- Popen h [path; "-v"] ;;
      let m := Re.search_multiline Re.gcc_version o in
      let m2 := Re.search_multiline Re.target_line o in
      match m, m2 with
      | Some g1, Some t1 =>
          version <- Version_of_text g1 ;;
          target <- Triple.parse t1 ;;
          Ok ("gcc", version, target)
      | _, _ =>
          (* Or else return unknown *)
          Ok ("unknown", [], unknown_triple)
      end
  end.

Definition identify_cxx (path : string) := identify_cc path.

(** Returns (type, version); [type] is one of gmake, ninja and unknown. *)
Definition identify_make (path : string) : Res (string * Version) :=
  '(stdout, _) <- Popen h [path; "--version"] ;;
  match Re.gnu_make stdout with
  | Some m1 =>
      version <- Version_of_text m1 ;;
      Ok ("gmake", version)
  | None =>
      (* Else, run BUILD --help and look for usage: ninja *)
      '(_, stderr) <- Popen h [path; "--help"] ;;
      if Re.usage_ninja stderr then
        version <- Version_of_text (Py.strip stdout) ;;
        Ok ("ninja", version)
      else
        (* Or else return unknown *)
        Ok ("unknown", [])
  end.

End Identifier.

(** ** Flag regeneration *)

(** The values an option holds after parsing. *)
Inductive PyVal : Type :=
| VNone
| VBool (b : bool)
| VStr (s : string)
| VList (l : list string).

(** The truth value of [v] in a condition. *)
Definition truthy (v : PyVal) : bool :=
  match v with
  | VNone => false
  | VBool b => b
  | VStr EmptyString => false
  | VStr _ => true
  | VList [] => false
  | VList _ => true
  end.

(** The truth value of [os.environ.get(name)] and of an [env_name]: a
    string that is there and not empty. *)
Definition nonempty (v : option string) : option string :=
  match v with
  | Some EmptyString => None
  | _ => v
  end.

(** One entry of [_regeneration_metadata], as [add_option] records it. *)
Record Metadata : Type := {
  action : option string;
  type : option string;
  env_name : option string;
  opt : string
}.

(** The parsed options object: its attributes by name, and the table
    [parse_args] attaches, in the order [iteritems] goes through it. *)
Record Options : Type := {
  use_environment : bool;
  depth : PyVal;
  getattr : string -> PyVal;
  regeneration_metadata : list (string * Metadata)
}.

(** What [RegenerateFlags] prints on [sys.stderr]. *)
Inductive Warning : Type :=
| EnvRegenerationUnimplemented (action opt env_name : string)
| RegenerationUnimplemented (action : option string) (opt : string).

(** [list.remove(x)] of a list that holds [x]: the first [x] goes. *)
Fixpoint list_remove (x : string) (l : list string) : list string :=
  match l with
  | [] => []
  | y :: l' => if String.eqb y x then l' else y :: list_remove x l'
  end.

(** [x != v] *)
Definition differs_from (v x : string) : bool := negb (String.eqb x v).

(** [x in l] *)
Definition list_in (x : string) (l : list string) : bool :=
  existsb (String.eqb x) l.

(** [if value in flags: flags.remove(value)], then [flags.append(value)] *)
Definition move_to_end (flags : list string) (value : string) : list string :=
  (if list_in value flags then list_remove value flags else flags) ++ [value].

(** What the specification words for the tokens of the environment: of
    equal tokens the last one stays, where it stands. *)
Fixpoint last_write_wins (l : list string) : list string :=
  match l with
  | [] => []
  | x :: l' => if list_in x l' then last_write_wins l'
               else x :: last_write_wins l'
  end.

Section Regeneration.

Variable h : Host.

(** [gyp.common.FixIfRelativePath(path, relative_to)]: [gyp.common] is
    not among the sources, so the function is a parameter, taken on
    path strings. *)
Variable FixIfRelativePath : string -> PyVal -> string.

Definition ShlexEnv (env_name : string) : Res (list string) :=
  match nonempty (os_environ h env_name) with
  | Some flags => shlex_split h flags
  | None => Ok []
  end.

(** [str(value)], as [%s] formats it. *)
Definition py_str (value : PyVal) : string :=
  match value with
  | VNone => "None"
  | VBool true => "True"
  | VBool false => "False"
  | VStr s => s
  | VList l => repr_list h l
  end.

Definition FormatOpt (opt : string) (value : PyVal) : Res string :=
  if Py.startswith opt "--" then Ok (opt ++ "=" ++ py_str value)%string
  else
    (* [opt + value]: a string can only be joined to a string *)
    match value with
    | VStr s => Ok (opt ++ s)%string
    | _ => Raise TypeError
    end.

(** [for flag_value in values] *)
Definition py_iter (values : PyVal) : Res (list string) :=
  match values with
  | VList l => Ok l
  | VStr s => Ok (map (fun c => String c EmptyString) (list_ascii_of_string s))
  | _ => Raise TypeError
  end.

(** [FormatOpt(flag, predicate(flag_value))] *)
Definition format_value (flag : string) (predicate : PyVal -> Res PyVal)
  (flag_value : PyVal) : Res string :=
  v <- predicate flag_value ;;
  FormatOpt flag v.

(** The first loop of [RegenerateAppendFlag], from the flags so far. *)
Fixpoint append_env_flags (flag : string) (predicate : PyVal -> Res PyVal)
  (flags : list string) (env_values : list string) : Res (list string) :=
  match env_values with
  | [] => Ok flags
  | flag_value :: rest =>
      value <- format_value flag predicate (VStr flag_value) ;;
      append_env_flags flag predicate (move_to_end flags value) rest
  end.

(** The second loop of [RegenerateAppendFlag], from the flags so far. *)
Fixpoint append_value_flags (flag : string) (predicate : PyVal -> Res PyVal)
  (flags : list string) (values : list string) : Res (list string) :=
  match values with
  | [] => Ok flags
  | flag_value :: rest =>
      value <- format_value flag predicate (VStr flag_value) ;;
      append_value_flags flag predicate (flags ++ [value]) rest
  end.

Definition RegenerateAppendFlag (flag : string) (values : PyVal)
  (predicate : PyVal -> Res PyVal) (env_name : option string)
  (options : Options) : Res (list string) :=
  let flags := [] in
  flags <-
    match use_environment options, nonempty env_name with
    | true, Some name =>
        env_values <- ShlexEnv name ;;
        append_env_flags flag predicate flags env_values
    | _, _ => Ok flags
    end ;;
  if truthy values then
    items <- py_iter values ;;
    append_value_flags flag predicate flags items
  else Ok flags.

Definition FixPath (options : Options) (path : PyVal) : Res PyVal :=
  match path with
  | VStr p =>
      match FixIfRelativePath p (depth options) with
      | EmptyString => Ok (VStr (os_curdir h))
      | path => Ok (VStr path)
      end
  | _ => Raise AttributeError
  end.

Definition Noop (value : PyVal) : Res PyVal := Ok value.

Definition is_action (action : option string) (name : string) : bool :=
  match action with
  | Some a => String.eqb a name
  | None => false
  end.

(** [metadata['type'] == 'path' and FixPath or Noop] *)
Definition value_predicate (options : Options) (metadata : Metadata)
  : PyVal -> Res PyVal :=
  if is_action (type metadata) "path" then FixPath options else Noop.

(** The body of the loop of [RegenerateFlags] for one entry of the
    table: the flags to add and what is printed on [sys.stderr]. *)
Definition regenerate_option (options : Options) (name : string)
  (metadata : Metadata) : Res (list string * list Warning) :=
  let opt := opt metadata in
  let value := getattr options name in
  let value_predicate := value_predicate options metadata in
  let action := action metadata in
  let env_name := env_name metadata in
  if is_action action "append" then
    flags <- RegenerateAppendFlag opt value value_predicate env_name options ;;
    Ok (flags, [])
  else if is_action action "store"
          || match action with None => true | _ => false end then
    (* None is a synonym for 'store'. *)
    if truthy value then
      flag <- format_value opt value_predicate value ;;
      Ok ([flag], [])
    else
      match use_environment options, nonempty env_name with
      | true, Some e =>
          match nonempty (os_environ h e) with
          | Some env_value =>
              flag <- format_value opt value_predicate (VStr env_value) ;;
              Ok ([flag], [])
          | None => Ok ([], [])
          end
      | _, _ => Ok ([], [])
      end
  else if is_action action "store_true" || is_action action "store_false" then
    if (is_action action "store_true" && truthy value)
       || (is_action action "store_false" && negb (truthy value))
    then Ok ([opt], [])
    else
      match use_environment options, nonempty env_name, action with
      | true, Some e, Some a =>
          Ok ([], [EnvRegenerationUnimplemented a opt e])
      | _, _, _ => Ok ([], [])
      end
  else Ok ([], [RegenerationUnimplemented action opt]).

(** The loop of [RegenerateFlags], from the flags and the warnings so
    far. *)
Fixpoint regenerate_loop (options : Options)
  (table : list (string * Metadata)) (flags : list string)
  (stderr : list Warning) : Res (list string * list Warning) :=
  match table with
  | [] => Ok (flags, stderr)
  | (name, metadata) :: rest =>
      '(fs, ws) <- regenerate_option options name metadata ;;
      regenerate_loop options rest (flags ++ fs) (stderr ++ ws)
  end.

(** The flags returned, and what was printed on [sys.stderr]. *)
Definition RegenerateFlags (options : Options)
  : Res (list string * list Warning) :=
  (* We always want to ignore the environment when regenerating *)
  let flags := ["--ignore-environment"] in
  regenerate_loop options (regeneration_metadata options) flags [].

End Regeneration.

(** ** The tool search path of [gyp_main] *)

Section Main.

Variable h : Host.

(** [os.path.join(a, b, c, ...)] *)
Definition os_path_join_all (a : string) (rest : list string) : string :=
  fold_left (os_path_join h) rest a.

(** The lines of [gyp_main] from [android_ndk = ...] to the choice of
    [paths]: [android] is the truth value of [options.android] and
    [build] the triple of [detect_build()]. *)
Definition gyp_main_paths (android : bool) (build : Triple.t)
  : Res (list string) :=
  (* If --android, detect android ndk path *)
  match nonempty (os_environ h "ANDROID_NDK_ROOT") with
  | None =>
      Raise (GypError "ANDROID_NDK_ROOT environment variable is not defined")
  | Some android_ndk =>
      (* Executable search path *)
      if android then
        Ok (glob_glob h
              (os_path_join_all android_ndk
                 ["toolchains"; "*"; "prebuilt";
                  (Triple.os build ++ "-" ++ Triple.arch build)%string;
                  "bin"]))
      else
        Ok (Py.split (os_pathsep h) (os_getenv h "PATH" EmptyString))
  end.

End Main.

(** ** Printing a version *)

(** Every character of [s] is one [p] holds of. *)
Fixpoint all_chars (p : ascii -> bool) (s : string) : bool :=
  match s with
  | EmptyString => true
  | String c r => p c && all_chars p r
  end.

(** [str(x)] of an integer: its decimal digits, after a minus sign when it
    is negative. *)
Definition str_int (z : Z) : string := NilZero.string_of_int (Z.to_int z).

(** [Version.__str__] *)
Definition Version_str (self : Version) : string :=
  Py.join "." (map str_int self).

Definition not_space (c : ascii) : bool := negb (Py.is_space c).

(** The characters of [str(x)] for an integer [x]. *)
Definition digit_or_minus (c : ascii) : bool :=
  Py.is_digit c || Ascii.eqb c "-".

(** [FormatOpt] of a string value. *)
Definition format_str (opt value : string) : string :=
  if Py.startswith opt "--" then (opt ++ "=" ++ value)%string
  else (opt ++ value)%string.

(** ** Name-value lists *)

(** The values [NameValueListToDict] stores: an integer, a string or
    [True]. *)
Inductive DictValue : Type :=
| DInt (z : Z)
| DStr (s : string)
| DTrue.

(** A dict with string keys: each key is there once. *)
Definition Dict : Type := list (string * DictValue).

(** [d.get(key)] *)
Fixpoint dict_get (d : Dict) (key : string) : option DictValue :=
  match d with
  | [] => None
  | (k, v) :: rest => if String.eqb k key then Some v else dict_get rest key
  end.

(** [d[key] = value] *)
Definition dict_set (d : Dict) (key : string) (value : DictValue) : Dict :=
  (key, value) :: filter (fun kv => negb (String.eqb (fst kv) key)) d.

(** The body of the loop of [NameValueListToDict]. *)
Definition name_value_item (result : Dict) (item : string) : Dict :=
  let tokens := Py.split_max "=" item 1 in
  match tokens with
  | [name; value] =>
      (* If we can make it an int, use that, otherwise, use the string. *)
      let token_value :=
        match Py.int value with
        | Ok z => DInt z
        | Raise _ => DStr value
        end in
      dict_set result name token_value
  | name :: _ =>
      (* No value supplied, treat it as a boolean and set it. *)
      dict_set result name DTrue
  | [] => result
  end.

Definition NameValueListToDict (name_value_list : list string) : Dict :=
  fold_left name_value_item name_value_list [].

(** The lines of [gyp_main] that define the host-specific defines:
    [host_gyp] and [build_gyp] are the normalized host and build
    triples. *)
Definition gyp_main_host_defines (options : Options)
  (host_gyp build_gyp : Triple.t) : list string :=
  let defines := [] in
  let defines := defines ++ [("OS=" ++ Triple.os host_gyp)%string] in
  let defines := defines ++ [("target_arch=" ++ Triple.arch host_gyp)%string] in
  let defines := defines ++ ["arm_version=7"] in
  let defines := defines ++ [("host_arch=" ++ Triple.arch build_gyp)%string] in
  let defines :=
    if truthy (getattr options "android")
    then defines
         ++ [("android_target_arch=" ++ Triple.arch host_gyp)%string]
    else defines in
  let defines :=
    if String.eqb (Triple.arch host_gyp) "arm"
    then defines ++ ["armv7=1"; "arm_fpu=vfpv3"; "arm_neon=0"; "arm_thumb=0";
                     "arm_float_abi=default"]
    else defines in
  defines.

(** The lines of [gyp_main] that collect [defines]: the defines of the
    host, then those of [GYP_DEFINES], then those of the command line. *)
Definition gyp_main_defines (h : Host) (options : Options)
  (host_gyp build_gyp : Triple.t) : Res (list string) :=
  let defines := gyp_main_host_defines options host_gyp build_gyp in
  defines <-
    (if use_environment options
     then env_defines <- ShlexEnv h "GYP_DEFINES" ;;
          Ok (defines ++ env_defines)
     else Ok defines) ;;
  if truthy (getattr options "defines")
  then items <- py_iter (getattr options "defines") ;;
       Ok (defines ++ items)
  else Ok defines.

(** [cmdline_default_variables] of [gyp_main]. *)
Definition gyp_main_default_variables (h : Host) (options : Options)
  (host_gyp build_gyp : Triple.t) : Res Dict :=
  defines <- gyp_main_defines h options host_gyp build_gyp ;;
  Ok (NameValueListToDict defines).

(** ** Finding the tools *)

(** What the [find_] functions return: the iterator of a one-element
    tuple, or a generator of [find_executables]. *)
Inductive Iterator : Type :=
| TupleIter (items : list string)
| GeneratorIter (g : Locator.Generator).

(** [next(it, None)] *)
Definition iter_next (h : Host) (st : Locator.Store) (it : Iterator)
  : Locator.Store * Iterator * option string :=
  match it with
  | TupleIter [] => (st, TupleIter [], None)
  | TupleIter (x :: rest) => (st, TupleIter rest, Some x)
  | GeneratorIter g =>
      let '(st, g, r) := Locator.next h st g in (st, GeneratorIter g, r)
  end.

(** [list(it)], by at most [fuel] calls of [next]. *)
Fixpoint iter_drain (h : Host) (fuel : nat) (st : Locator.Store)
  (it : Iterator) : Locator.Store * Iterator * list string :=
  match fuel with
  | 0 => (st, it, [])
  | S fuel' =>
      match iter_next h st it with
      | (st', it', None) => (st', it', [])
      | (st', it', Some path) =>
          let '(st'', it'', paths) := iter_drain h fuel' st' it' in
          (st'', it'', path :: paths)
      end
  end.

(** The variables of [names] the environment does not have. *)
Definition unset_variables (h : Host) (names : list string) : list string :=
  filter (fun name => match os_environ h name with
                      | Some _ => false
                      | None => true
                      end) names.

(** [['{}-{}'.format(host, z) for z in x] if host else []]: [host] is a
    triple, which is always true, or [None]. *)
Definition host_prefixed (host : option Triple.t) (x : list string)
  : list string :=
  match host with
  | Some t => map (fun z => (Triple.str t ++ "-" ++ z)%string) x
  | None => []
  end.

(** What [find_cc], [find_cxx], [find_ar] and [find_link] have in common:
    the value of [variable] when the environment has it, else a search
    for the names [x], those with the host in front first.  The list
    [y + x] is a new object; [fresh] is the reference it gets. *)
Definition find_tool (variable : string) (x : list string) (h : Host)
  (st : Locator.Store) (fresh : Locator.ref) (host : option Triple.t)
  (paths : option Locator.ref) : Locator.Store * Iterator :=
  match os_environ h variable with
  | Some value => (st, TupleIter [value])
  | None =>
      let y := host_prefixed host x in
      let st := Locator.store_set st fresh (y ++ x) in
      let '(st, g) := Locator.find_executables st fresh paths in
      (st, GeneratorIter g)
  end.

Definition find_cc : Host -> Locator.Store -> Locator.ref ->
  option Triple.t -> option Locator.ref -> Locator.Store * Iterator :=
  find_tool "CC" ["gcc"; "gcc-4.8"; "gcc-4.7"; "gcc-4.6"].

Definition find_cxx : Host -> Locator.Store -> Locator.ref ->
  option Triple.t -> option Locator.ref -> Locator.Store * Iterator :=
  find_tool "CXX" ["g++"; "g++-4.8"; "g++-4.7"; "g++-4.6"].

Definition find_ar : Host -> Locator.Store -> Locator.ref ->
  option Triple.t -> option Locator.ref -> Locator.Store * Iterator :=
  find_tool "AR" ["ar"; "gcc-ar-4.8"; "gcc-ar-4.7"].

Definition find_link : Host -> Locator.Store -> Locator.ref ->
  option Triple.t -> option Locator.ref -> Locator.Store * Iterator :=
  find_tool "LINK" ["g++"; "g++-4.8"; "g++-4.7"; "g++-4.6"].

(** Finds a list of possible build systems; [host] is not looked at. *)
Definition find_make (h : Host) (st : Locator.Store) (fresh : Locator.ref)
  (host : option Triple.t) (paths : option Locator.ref)
  : Locator.Store * Iterator :=
  if Py.startswith (sys_platform h) "win" then
    (* Only msbuild is supported on Windows. *)
    let st := Locator.store_set st fresh ["msbuild"] in
    let '(st, g) := Locator.find_executables st fresh paths in
    (st, GeneratorIter g)
  else
    (* Prefer ninja, then GNU Make *)
    let st := Locator.store_set st fresh ["ninja"; "gmake"; "make"] in
    let '(st, g) := Locator.find_executables st fresh paths in
    (st, GeneratorIter g).

(** The lines of [gyp_main] that detect the required tools: the four
    paths found, [None] where there is none.  The four name lists get the
    references from [fresh] on; [paths] is the one list all four searches
    are given. *)
Definition gyp_main_tools (h : Host) (st : Locator.Store)
  (fresh : Locator.ref) (host : option Triple.t) (paths : Locator.ref)
  : Locator.Store
    * (option string * option string * option string * option string) :=
  let '(st, it) := find_cc h st fresh host (Some paths) in
  let '(st, _, cc_path) := iter_next h st it in
  let '(st, it) := find_cxx h st (1 + fresh) host (Some paths) in
  let '(st, _, cxx_path) := iter_next h st it in
  let '(st, it) := find_ar h st (2 + fresh) host (Some paths) in
  let '(st, _, ar_path) := iter_next h st it in
  let '(st, it) := find_link h st (3 + fresh) host (Some paths) in
  let '(st, _, link_path) := iter_next h st it in
  (st, (cc_path, cxx_path, ar_path, link_path)).

(** ** Build triple and Android hosts *)

(** Detect build system triple; [machine] is [platform.machine()]. *)
Definition detect_build (h : Host) (machine : string) : Triple.t :=
  let arch := machine in
  if Py.startswith (sys_platform h) "win" then Triple.Make arch "win" "msvc"
  else if Py.startswith (sys_platform h) "linux"
  then Triple.Make arch "linux" "gnu"
  else if Py.startswith (sys_platform h) "cygwin"
  then Triple.Make arch "win" "cygwin"
  else Triple.Make arch "unknown" "unknown".

(** [s[:-4]] *)
Definition drop_last4 (s : string) : string :=
  substring 0 (String.length s - 4) s.

Definition Triple_eq_dec (a b : Triple.t) : {a = b} + {a <> b}.
Proof. decide equality; apply string_dec. Defined.

(** ['{}/toolchains/*/prebuilt/{}-{}/bin/*-gcc'.format(path, build[1],
    build[0])] *)
Definition android_pattern (path : string) (build : Triple.t) : string :=
  (path ++ "/toolchains/*/prebuilt/" ++ Triple.os build ++ "-"
   ++ Triple.arch build ++ "/bin/*-gcc")%string.

(** Get possible toolchains: the set of the triples, as a list without
    repetition.  [basename] is [os.path.basename]; [build] is the build
    triple, of which the pattern takes the os and the arch. *)
Definition android_get_hosts (h : Host) (basename : string -> string)
  (path : string) (build : Triple.t) : Res (list Triple.t) :=
  let paths := glob_glob h (android_pattern path build) in
  hosts <- mapM (fun x => Triple.parse (drop_last4 (basename x))) paths ;;
  Ok (nodup Triple_eq_dec hosts).

(** ** Hosts to run the program on *)

Module Fixtures.

(** [s.endswith(c)] for a one-character [c]. *)
Fixpoint ends_with (c : ascii) (s : string) : bool :=
  match s with
  | EmptyString => false
  | String a EmptyString => Ascii.eqb a c
  | String _ r => ends_with c r
  end.

(** [posixpath.join(a, b)] *)
Definition posix_join (a b : string) : string :=
  if Py.startswith b "/" then b
  else if String.eqb a EmptyString || ends_with "/" a then (a ++ b)%string
  else (a ++ "/" ++ b)%string.

(** [ntpath.join(a, b)] for a directory [a] without a trailing
    separator and a plain file name [b]. *)
Definition nt_join (a b : string) : string := (a ++ "\" ++ b)%string.

(** [shlex.split] on a text of plain words, without quotes or
    backslashes: the runs between white space. *)
Fixpoint words_from (word : string) (s : string) : list string :=
  match s with
  | EmptyString =>
      match word with EmptyString => [] | _ => [word] end
  | String c r =>
      if Py.is_space c then
        match word with
        | EmptyString => words_from EmptyString r
        | _ => word :: words_from EmptyString r
        end
      else words_from (word ++ String c EmptyString) r
  end.

Definition words (s : string) : Res (list string) :=
  Ok (words_from EmptyString s).

(** An environment, a set of executable files and a table of processes
    given by lists. *)
Fixpoint lookup {A : Type} (table : list (string * A)) (name : string)
  : option A :=
  match table with
  | [] => None
  | (k, v) :: rest => if String.eqb k name then Some v else lookup rest name
  end.

Definition launch (processes : list (list string * (string * string)))
  (argv : list string) : Res (string * string) :=
  match find (fun p => if list_eq_dec string_dec (fst p) argv
                       then true else false) processes with
  | Some (_, output) => Ok output
  | None => Raise OSError
  end.

Definition linux (environ : list (string * string))
  (executables : list string)
  (processes : list (list string * (string * string))) : Host :=
  {| sys_platform := "linux2";
     os_environ := lookup environ;
     os_pathsep := ":";
     os_curdir := ".";
     os_path_join := posix_join;
     os_access := fun path => existsb (String.eqb path) executables;
     glob_glob := fun _ => [];
     shlex_split := words;
     Popen := launch processes;
     repr_list := fun l => ("[" ++ Py.join ", " l ++ "]")%string |}.

Definition windows (environ : list (string * string))
  (executables : list string)
  (processes : list (list string * (string * string))) : Host :=
  {| sys_platform := "win32";
     os_environ := lookup environ;
     os_pathsep := ";";
     os_curdir := ".";
     os_path_join := nt_join;
     os_access := fun path => existsb (String.eqb path) executables;
     glob_glob := fun _ => [];
     shlex_split := words;
     Popen := launch processes;
     repr_list := fun l => ("[" ++ Py.join ", " l ++ "]")%string |}.

(** A store with the list [names] at reference 0 and [paths] at 1. *)
Definition store (names paths : list string) : Locator.Store :=
  fun r => match r with 0 => names | 1 => paths | _ => [] end.

(** [gyp.common.FixIfRelativePath] stood in for by the identity. *)
Definition keep_path (path : string) (relative_to : PyVal) : string := path.

Definition banner : string :=
  "Microsoft (R) C/C++ Optimizing Compiler Version 19.0 for x64".

(** A text of the given lines, each ended by a newline. *)
Fixpoint lines (ls : list string) : string :=
  match ls with
  | [] => EmptyString
  | l :: ls' => (l ++ String Py.LF (lines ls'))%string
  end.

End Fixtures.

(** [posixpath.basename(p)]: what follows the last slash. *)
Definition posix_basename (p : string) : string :=
  last (Py.split "/" p) EmptyString.

(** A directory of compilers in an NDK. *)
Definition ndk_bin : string := "/ndk/toolchains/x/prebuilt/linux-x86_64/bin/".

(** The host [h] with [files] for what every pattern matches. *)
Definition with_glob (h : Host) (files : list string) : Host :=
  {| sys_platform := sys_platform h;
     os_environ := os_environ h;
     os_pathsep := os_pathsep h;
     os_curdir := os_curdir h;
     os_path_join := os_path_join h;
     os_access := os_access h;
     glob_glob := fun _ => files;
     shlex_split := shlex_split h;
     Popen := Popen h;
     repr_list := repr_list h |}.

(* ================================================================== *)
(** * Part II: properties                                             *)
(* ================================================================== *)

(** ** Strings *)

Lemma split_max_cut (sep : ascii) (a r : string) (n : nat) :
  Py.count sep a = 0 ->
  Py.split_max sep (a ++ String sep r) (S n) = a :: Py.split_max sep r n.
Proof.
  induction a as [|c a IH]; intros Hc.
  - simpl. rewrite Ascii.eqb_refl. reflexivity.
  - simpl in Hc. change ((String c a ++ String sep r)%string)
      with (String c (a ++ String sep r)).
    cbn [Py.split_max].
    destruct (Ascii.eqb c sep); [discriminate|].
    rewrite IH by exact Hc. reflexivity.
Qed.

Lemma split_max_length (sep : ascii) (s : string) (n : nat) :
  length (Py.split_max sep s n) = S (Nat.min (Py.count sep s) n).
Proof.
  revert n; induction s as [|c r IH]; intros n; [reflexivity|].
  destruct n as [|n]; [simpl; rewrite Nat.min_0_r; reflexivity|].
  cbn [Py.split_max Py.count].
  destruct (Ascii.eqb c sep).
  - cbn [length]. rewrite IH. reflexivity.
  - specialize (IH (S n)).
    destruct (Py.split_max sep r (S n)) as [|x xs]; [discriminate|].
    cbn [length] in *. exact IH.
Qed.

Lemma first_cut (sep : ascii) (s : string) :
  1 <= Py.count sep s ->
  exists a r, s = (a ++ String sep r)%string
              /\ Py.count sep a = 0
              /\ Py.count sep s = S (Py.count sep r).
Proof.
  induction s as [|c s IH]; intros Hc; [cbn in Hc; lia|].
  cbn [Py.count] in *. destruct (Ascii.eqb c sep) eqn:Heq.
  - apply Ascii.eqb_eq in Heq. subst c.
    exists EmptyString, s. repeat split.
  - destruct (IH Hc) as [a [r [-> [Ha Hr]]]].
    exists (String c a), r. cbn [append Py.count]. rewrite Heq.
    repeat split; assumption.
Qed.

Lemma string_app_assoc (a b c : string) :
  ((a ++ b) ++ c)%string = (a ++ b ++ c)%string.
Proof.
  induction a as [|x a IH]; [reflexivity|].
  cbn [append]. rewrite IH. reflexivity.
Qed.

(** ** Platform triple *)

(** C8. Both normalizations are idempotent, and they map the triples the
    specification names as it says: [gnu] takes i686-linux-gnu to
    x86-linux-gnu and x64-win-msvc to x86_64-win-msvc, and [gyp] takes
    x86_64-win-msvc to x64-win-msvc. *)
Theorem normalizations_idempotent (t : Triple.t) :
  Triple.gnu (Triple.gnu t) = Triple.gnu t
  /\ Triple.gyp (Triple.gyp t) = Triple.gyp t
  /\ (x <- Triple.parse "i686-linux-gnu" ;; Ok (Triple.str (Triple.gnu x)))
     = Ok "x86-linux-gnu"
  /\ (x <- Triple.parse "x64-win-msvc" ;; Ok (Triple.str (Triple.gnu x)))
     = Ok "x86_64-win-msvc"
  /\ (x <- Triple.parse "x86_64-win-msvc" ;; Ok (Triple.str (Triple.gyp x)))
     = Ok "x64-win-msvc".
Proof.
  destruct t as [a o e].
  split; [|split; [|repeat split]].
  - unfold Triple.gnu.
    destruct (Triple.match_i_d_86 a) eqn:Hm.
    + reflexivity.
    + destruct (String.eqb a "x64") eqn:Hx.
      * reflexivity.
      * rewrite Hm, Hx. reflexivity.
  - unfold Triple.gyp.
    destruct (Triple.match_i_d_86 a) eqn:Hm.
    + reflexivity.
    + destruct (String.eqb a "x86_64") eqn:Hx.
      * reflexivity.
      * rewrite Hm, Hx. reflexivity.
Qed.

(** C3, as the specification states it, fails: a text of two components
    does not give a triple with an empty [env]; the constructor of the
    named tuple raises [TypeError]. *)
Lemma parse_two_components_raises :
  Triple.parse "x86-linux" = Raise TypeError
  /\ ~ (exists t, Triple.parse "x86-linux" = Ok t).
Proof.
  split; [reflexivity|].
  intros [t Ht]. discriminate Ht.
Qed.

(** C3, amended. [Triple.parse] cuts at the first two dashes only: a text
    [a-o-e] whose [a] and [o] hold no dash gives the triple (a, o, e),
    whatever dashes [e] holds.  A text with at least two dashes always
    gives a triple, which prints as the text; a text with fewer than two
    dashes raises [TypeError]. *)
Theorem parse_arity (target : string) :
  (Py.count "-" target < 2 -> Triple.parse target = Raise TypeError)
  /\ (forall a o e : string,
        Py.count "-" a = 0 -> Py.count "-" o = 0 ->
        target = (a ++ "-" ++ o ++ "-" ++ e)%string ->
        Triple.parse target = Ok (Triple.Make a o e))
  /\ (2 <= Py.count "-" target ->
      exists t, Triple.parse target = Ok t /\ Triple.str t = target).
Proof.
  assert (Hcut : forall a o e : string,
             Py.count "-" a = 0 -> Py.count "-" o = 0 ->
             Triple.parse (a ++ "-" ++ o ++ "-" ++ e)
             = Ok (Triple.Make a o e)).
  { intros a o e Ha Ho. unfold Triple.parse.
    change (a ++ "-" ++ o ++ "-" ++ e)%string
      with (a ++ String "-" (o ++ String "-" e))%string.
    rewrite split_max_cut by exact Ha.
    rewrite split_max_cut by exact Ho.
    destruct e; reflexivity. }
  split; [|split].
  - intros Hlt. unfold Triple.parse.
    pose proof (split_max_length "-" target 2) as Hlen.
    destruct (Py.split_max "-" target 2) as [|x [|y [|z [|w l]]]];
      cbn [length] in Hlen; try reflexivity; lia.
  - intros a o e Ha Ho ->. apply Hcut; assumption.
  - intros Hge.
    destruct (first_cut "-" target ltac:(lia)) as [a [r [-> [Ha Hr]]]].
    destruct (first_cut "-" r ltac:(lia)) as [o [e [-> [Ho _]]]].
    exists (Triple.Make a o e). split.
    + apply (Hcut a o e Ha Ho).
    + reflexivity.
Qed.

Lemma parse_arity_witness :
  Triple.parse "mingw32" = Raise TypeError
  /\ Triple.parse "arm-linux-androideabi-4.8"
     = Ok (Triple.Make "arm" "linux" "androideabi-4.8")
  /\ exists t, Triple.parse "x86_64-w64-mingw32" = Ok t
               /\ Triple.str t = "x86_64-w64-mingw32".
Proof.
  split; [|split].
  - apply (proj1 (parse_arity "mingw32")). vm_compute. lia.
  - apply (proj1 (proj2 (parse_arity "arm-linux-androideabi-4.8"))
             "arm" "linux" "androideabi-4.8"); reflexivity.
  - apply (proj2 (proj2 (parse_arity "x86_64-w64-mingw32"))).
    vm_compute. lia.
Defined.

(** ** Executable locator *)

Section LocatorFacts.

Import Locator.

Variable h : Host.

Lemma scan_exts_hits (name prefix : string) (suffixes : list string) :
  match scan_exts h name prefix suffixes with
  | Some (path, rest) =>
      hits h name prefix suffixes = path :: hits h name prefix rest
  | None => hits h name prefix suffixes = []
  end.
Proof.
  induction suffixes as [|suffix rest IH]; [reflexivity|].
  unfold hits in *. cbn [scan_exts map filter].
  destruct (os_access h (os_path_join h prefix name ++ suffix)) eqn:Hacc.
  - reflexivity.
  - exact IH.
Qed.

Lemma scan_paths_hits (exts : list string) (name : string)
  (pl : list string) (j : nat) :
  match scan_paths h exts name (skipn j pl) j with
  | Some (path, (j', prefix, rest)) =>
      flat_map (fun p => hits h name p exts) (skipn j pl)
      = path :: hits h name prefix rest
          ++ flat_map (fun p => hits h name p exts) (skipn j' pl)
  | None => flat_map (fun p => hits h name p exts) (skipn j pl) = []
  end.
Proof.
  remember (skipn j pl) as ps eqn:Hps.
  revert j Hps. induction ps as [|prefix ps IH]; intros j Hps;
    [reflexivity|].
  assert (Hnext : ps = skipn (S j) pl).
  { clear IH. revert pl Hps. induction j as [|j IHj]; intros pl Hps.
    - destruct pl; simpl in Hps; [discriminate|].
      injection Hps as _ Hps. exact Hps.
    - destruct pl; simpl in Hps; [discriminate|].
      apply (IHj pl Hps). }
  cbn [scan_paths flat_map].
  pose proof (scan_exts_hits name prefix exts) as He.
  destruct (scan_exts h name prefix exts) as [[path rest]|].
  - rewrite He, <- Hnext. reflexivity.
  - rewrite He. cbn [app].
    specialize (IH (S j) Hnext).
    destruct (scan_paths h exts name ps (S j)) as [[path [[j' p'] rest]]|];
      exact IH.
Qed.

Lemma scan_names_hits (exts pl : list string) (ns : list string) (i : nat) :
  match scan_names h exts pl (skipn i ns) i with
  | Some (path, (i', name, (j', prefix, rest))) =>
      name_major h exts pl (skipn i ns)
      = path :: hits h name prefix rest
          ++ flat_map (fun p => hits h name p exts) (skipn j' pl)
          ++ name_major h exts pl (skipn i' ns)
  | None => name_major h exts pl (skipn i ns) = []
  end.
Proof.
  remember (skipn i ns) as rest_ns eqn:Hns.
  revert i Hns. induction rest_ns as [|name rest_ns IH]; intros i Hns;
    [reflexivity|].
  assert (Hnext : rest_ns = skipn (S i) ns).
  { clear IH. revert ns Hns. induction i as [|i IHi]; intros ns Hns.
    - destruct ns; simpl in Hns; [discriminate|].
      injection Hns as _ Hns. exact Hns.
    - destruct ns; simpl in Hns; [discriminate|].
      apply (IHi ns Hns). }
  unfold name_major in *. cbn [scan_names flat_map].
  pose proof (scan_paths_hits exts name pl 0) as Hp.
  cbn [skipn] in Hp.
  destruct (scan_paths h exts name pl 0) as [[path [[j' p'] rest]]|].
  - rewrite Hp, <- Hnext. cbn [app]. rewrite <- app_assoc. reflexivity.
  - rewrite Hp. cbn [app].
    specialize (IH (S i) Hnext).
    destruct (scan_names h exts pl rest_ns (S i))
      as [[path [[i' n'] [[j' p'] rest]]]|]; exact IH.
Qed.

(** One call of [next] takes the head off what is pending, or finds
    nothing pending and finishes the generator. *)
Lemma next_pending (st : Store) (g : Generator) :
  match next h st g with
  | (st', g', Some path) => pending h st g = path :: pending h st' g'
  | (st', g', None) => pending h st g = [] /\ g' = Finished
  end.
Proof.
  destruct g as [names paths|f|].
  - cbn [next pending].
    destruct (prologue h st paths) as [[st' pl] exts].
    unfold enter.
    pose proof (scan_names_hits exts (read st' pl) (st' names) 0) as Hn.
    cbn [skipn] in Hn.
    destruct (scan_names h exts (read st' pl) (st' names) 0)
      as [[path [[i' n'] [[j' p'] rest]]]|].
    + cbn [pending f_name f_prefix f_suffixes f_exts f_prefix_i
             f_pathlist f_name_i f_names]. exact Hn.
    + split; [exact Hn|reflexivity].
  - cbn [next pending]. unfold resume.
    pose proof (scan_exts_hits (f_name f) (f_prefix f) (f_suffixes f)) as He.
    destruct (scan_exts h (f_name f) (f_prefix f) (f_suffixes f))
      as [[path rest]|].
    + cbn [pending f_name f_prefix f_suffixes f_exts f_prefix_i
             f_pathlist f_name_i f_names].
      rewrite He. reflexivity.
    + rewrite He. cbn [app].
      pose proof (scan_paths_hits (f_exts f) (f_name f)
                    (read st (f_pathlist f)) (f_prefix_i f)) as Hp.
      destruct (scan_paths h (f_exts f) (f_name f)
                  (skipn (f_prefix_i f) (read st (f_pathlist f)))
                  (f_prefix_i f)) as [[path [[j' p'] rest]]|].
      * cbn [pending f_name f_prefix f_suffixes f_exts f_prefix_i
               f_pathlist f_name_i f_names].
        rewrite Hp. cbn [app]. rewrite <- app_assoc. reflexivity.
      * rewrite Hp. cbn [app].
        pose proof (scan_names_hits (f_exts f) (read st (f_pathlist f))
                      (st (f_names f)) (f_name_i f)) as Hn.
        destruct (scan_names h (f_exts f) (read st (f_pathlist f))
                    (skipn (f_name_i f) (st (f_names f))) (f_name_i f))
          as [[path [[i' n'] [[j' p'] rest]]]|].
        -- cbn [pending f_name f_prefix f_suffixes f_exts f_prefix_i
                 f_pathlist f_name_i f_names]. exact Hn.
        -- split; [exact Hn|reflexivity].
  - cbn [next pending]. split; reflexivity.
Qed.

(** Only the first [next] of a generator writes to the store. *)
Lemma next_store (st : Store) (g : Generator) :
  fst (fst (next h st g))
  = match g with
    | Created _ paths => fst (fst (prologue h st paths))
    | _ => st
    end.
Proof.
  destruct g as [names paths|f|]; cbn [next].
  - destruct (prologue h st paths) as [[st' pl] exts].
    destruct (enter h st' names pl exts). reflexivity.
  - destruct (resume h st f). reflexivity.
  - reflexivity.
Qed.

Lemma next_not_created (st : Store) (g : Generator) :
  match snd (fst (next h st g)) with
  | Created _ _ => False
  | _ => True
  end.
Proof.
  destruct g as [names paths|f|]; cbn [next].
  - destruct (prologue h st paths) as [[st' pl] exts].
    unfold enter.
    destruct (scan_names h exts (read st' pl) (st' names) 0)
      as [[path [[i' n'] [[j' p'] rest]]]|]; exact I.
  - unfold resume.
    destruct (scan_exts h (f_name f) (f_prefix f) (f_suffixes f))
      as [[path rest]|]; [exact I|].
    destruct (scan_paths h (f_exts f) (f_name f)
                (skipn (f_prefix_i f) (read st (f_pathlist f)))
                (f_prefix_i f)) as [[path [[j' p'] rest]]|]; [exact I|].
    destruct (scan_names h (f_exts f) (read st (f_pathlist f))
                (skipn (f_name_i f) (st (f_names f))) (f_name_i f))
      as [[path [[i' n'] [[j' p'] rest]]]|]; exact I.
  - exact I.
Qed.

(** With fuel for one call more than there are paths pending, [drain]
    yields all of them and leaves the generator finished. *)
Lemma drain_pending (fuel : nat) (st : Store) (g : Generator) :
  length (pending h st g) < fuel ->
  drain h fuel st g = (fst (fst (next h st g)), Finished, pending h st g).
Proof.
  revert st g. induction fuel as [|fuel IH]; intros st g Hlen; [lia|].
  cbn [drain].
  pose proof (next_pending st g) as Hn.
  pose proof (next_not_created st g) as Hc.
  destruct (next h st g) as [[st' g'] [path|]]; cbn [fst snd] in *.
  - rewrite Hn in Hlen. cbn [length] in Hlen.
    rewrite IH by lia.
    rewrite next_store.
    destruct g'; [contradiction| |]; rewrite Hn; reflexivity.
  - destruct Hn as [-> ->]. reflexivity.
Qed.

End LocatorFacts.

Section LocatorClaims.

Import Locator.

Variable h : Host.

Lemma drain_store (fuel : nat) (st : Store) (g : Generator) :
  match g with Created _ _ => False | _ => True end ->
  fst (fst (drain h fuel st g)) = st.
Proof.
  revert st g. induction fuel as [|fuel IH]; intros st g Hg;
    [reflexivity|].
  cbn [drain].
  pose proof (next_store h st g) as Hs.
  pose proof (next_not_created h st g) as Hc.
  destruct (next h st g) as [[st' g'] [path|]]; cbn [fst snd] in *.
  - specialize (IH st' g' Hc).
    destruct (drain h fuel st' g') as [[st'' g''] found].
    cbn [fst] in *. rewrite IH, Hs.
    destruct g; [contradiction|reflexivity|reflexivity].
  - rewrite Hs. destruct g; [contradiction|reflexivity|reflexivity].
Qed.

Lemma in_name_major (exts pl ns : list string) (path : string) :
  In path (name_major h exts pl ns) <->
  exists name prefix suffix,
    In name ns /\ In prefix pl /\ In suffix exts
    /\ path = (os_path_join h prefix name ++ suffix)%string
    /\ os_access h path = true.
Proof.
  unfold name_major, hits. split.
  - intros Hin.
    apply in_flat_map in Hin. destruct Hin as [name [Hn Hin]].
    apply in_flat_map in Hin. destruct Hin as [prefix [Hp Hin]].
    apply filter_In in Hin. destruct Hin as [Hin Hacc].
    apply in_map_iff in Hin. destruct Hin as [suffix [Heq Hs]].
    exists name, prefix, suffix. subst path. auto.
  - intros [name [prefix [suffix [Hn [Hp [Hs [Heq Hacc]]]]]]].
    apply in_flat_map. exists name. split; [exact Hn|].
    apply in_flat_map. exists prefix. split; [exact Hp|].
    apply filter_In. split; [|exact Hacc].
    apply in_map_iff. exists suffix. split; [symmetry; exact Heq|exact Hs].
Qed.

End LocatorClaims.

(** C2, as the specification states it, fails: with [cc] only in the
    second directory and [gcc] only in the first, the generator yields
    [/b/cc] before [/a/gcc]; going through the directories first would
    yield [/a/gcc] first. *)
Lemma find_executables_not_directory_major :
  let h := Fixtures.linux [] ["/b/cc"; "/a/gcc"] [] in
  let st := Fixtures.store ["cc"; "gcc"] ["/a"; "/b"] in
  snd (Locator.drain h 3 st (Locator.Created 0 (Some 1))) = ["/b/cc"; "/a/gcc"]
  /\ Locator.directory_major h [EmptyString] (st 1) (st 0) = ["/a/gcc"; "/b/cc"]
  /\ snd (Locator.drain h 3 st (Locator.Created 0 (Some 1)))
     <> Locator.directory_major h [EmptyString] (st 1) (st 0).
Proof.
  cbv zeta. split; [reflexivity|]. split; [reflexivity|].
  vm_compute. discriminate.
Qed.

(** C2, amended. The generator yields in name-major order: for each
    candidate name, then for each search directory, then for each suffix,
    the joined path exactly when it exists and is executable.  It yields
    finitely many paths, then stops; a missing file gives no element, and
    no call of [next] raises. *)
Theorem find_executables_name_major (h : Host) (st : Locator.Store)
  (names : Locator.ref) (paths : option Locator.ref) (fuel : nat) :
  let '(st0, g) := Locator.find_executables st names paths in
  let '(st', pl, exts) := Locator.prologue h st0 paths in
  let found := Locator.name_major h exts (Locator.read st' pl) (st' names) in
  (length found < fuel ->
   Locator.drain h fuel st0 g = (st', Locator.Finished, found))
  /\ (forall path : string,
        In path found <->
        exists name prefix suffix,
          In name (st' names) /\ In prefix (Locator.read st' pl)
          /\ In suffix exts
          /\ path = (os_path_join h prefix name ++ suffix)%string
          /\ os_access h path = true).
Proof.
  cbn [Locator.find_executables].
  destruct (Locator.prologue h st paths) as [[st' pl] exts] eqn:Hpro.
  cbv zeta. split.
  - intros Hlen.
    rewrite drain_pending.
    + rewrite next_store. cbn [Locator.pending]. rewrite Hpro. reflexivity.
    + cbn [Locator.pending]. rewrite Hpro. exact Hlen.
  - intros path. apply in_name_major.
Qed.

Lemma find_executables_name_major_witness :
  let h := Fixtures.linux [] ["/b/gcc"] [] in
  let st := Fixtures.store ["cc"; "gcc"] ["/a"; "/b"] in
  Locator.drain h 2 st (Locator.Created 0 (Some 1))
  = (st, Locator.Finished, ["/b/gcc"]).
Proof.
  cbv zeta.
  apply (proj1 (find_executables_name_major
                  (Fixtures.linux [] ["/b/gcc"] [])
                  (Fixtures.store ["cc"; "gcc"] ["/a"; "/b"])
                  0 (Some 1) 2)).
  vm_compute. lia.
Defined.

(** C10, as stated, fails: the call alone runs none of the body of the
    generator, so right after it the caller's list is as long as it was,
    on a Windows host too. *)
Lemma find_executables_call_leaves_paths :
  let h := Fixtures.windows [] [] [] in
  let st := Fixtures.store ["cc"] ["C:\bin"] in
  let '(st', g) := Locator.find_executables st 0 (Some 1) in
  st' 1 = ["C:\bin"] /\ length (st' 1) <> S (length (st 1)).
Proof.
  cbv zeta. cbn. split; [reflexivity|discriminate].
Qed.

(** C10, amended. The call of [find_executables] changes nothing.  The
    first [next] of the generator it returns inserts the current
    directory at position 0 of the caller's [paths] list, in place, on a
    Windows host, and changes nothing on another host; later calls of
    [next] change nothing.  The [names] list, when it is another object
    than [paths], is the same throughout on every host. *)
Theorem find_executables_inserts_curdir (h : Host) (st : Locator.Store)
  (names paths : Locator.ref) :
  let '(st0, g) := Locator.find_executables st names (Some paths) in
  let '(st1, g1, _) := Locator.next h st0 g in
  st0 = st
  /\ st1 = (if Py.startswith (sys_platform h) "win"
            then Locator.store_set st paths (os_curdir h :: st paths)
            else st)
  /\ (Py.startswith (sys_platform h) "win" = true ->
      st1 paths = os_curdir h :: st paths)
  /\ (forall fuel : nat, fst (fst (Locator.drain h fuel st1 g1)) = st1)
  /\ (names <> paths ->
      forall fuel : nat,
        st1 names = st names
        /\ fst (fst (Locator.drain h fuel st1 g1)) names = st names).
Proof.
  cbn [Locator.find_executables].
  pose proof (next_store h st (Locator.Created names (Some paths))) as Hs.
  pose proof (next_not_created h st (Locator.Created names (Some paths))) as Hc.
  destruct (Locator.next h st (Locator.Created names (Some paths)))
    as [[st1 g1] r]. cbn [fst snd] in *.
  assert (Hst1 :
            st1 = (if Py.startswith (sys_platform h) "win"
                   then Locator.store_set st paths (os_curdir h :: st paths)
                   else st)).
  { rewrite Hs. unfold Locator.prologue.
    destruct (Py.startswith (sys_platform h) "win"); reflexivity. }
  assert (Hdrain : forall fuel, fst (fst (Locator.drain h fuel st1 g1)) = st1).
  { intros fuel. apply drain_store. exact Hc. }
  split; [reflexivity|]. split; [exact Hst1|]. split; [|split].
  - intros Hwin. rewrite Hst1, Hwin. unfold Locator.store_set.
    rewrite Nat.eqb_refl. reflexivity.
  - exact Hdrain.
  - intros Hneq fuel. rewrite Hdrain.
    assert (Hn : st1 names = st names).
    { rewrite Hst1. destruct (Py.startswith (sys_platform h) "win");
        [|reflexivity].
      unfold Locator.store_set.
      destruct (Nat.eqb names paths) eqn:He; [|reflexivity].
      apply Nat.eqb_eq in He. contradiction. }
    split; exact Hn.
Qed.

Lemma find_executables_inserts_curdir_witness :
  let h := Fixtures.windows [("PATHEXT", ".exe")] ["C:\bin\cc.exe"] [] in
  let st := Fixtures.store ["cc"] ["C:\bin"] in
  let '(st1, g1, found) := Locator.next h st (Locator.Created 0 (Some 1)) in
  st1 1 = ["."; "C:\bin"] /\ st1 0 = ["cc"] /\ found = Some "C:\bin\cc.exe".
Proof.
  cbv zeta.
  pose proof (find_executables_inserts_curdir
                (Fixtures.windows [("PATHEXT", ".exe")] ["C:\bin\cc.exe"] [])
                (Fixtures.store ["cc"] ["C:\bin"]) 0 1) as H.
  cbn [Locator.find_executables] in H.
  destruct (Locator.next _ _ _) as [[st1 g1] found] eqn:Hnext.
  destruct H as [_ [_ [Hwin [_ Hnames]]]].
  split; [apply Hwin; reflexivity|].
  split; [apply (Hnames ltac:(discriminate) 0)|].
  vm_compute in Hnext. injection Hnext as _ _ Hf. symmetry. exact Hf.
Defined.

(** As [gyp_main] looks for one tool after the other with the same list,
    each generator puts the current directory in front of it again. *)
Example first_found_twice :
  let h := Fixtures.windows [("PATHEXT", ".exe")] ["C:\bin\cc.exe"] [] in
  let st := Fixtures.store ["cc"] ["C:\bin"] in
  let '(st1, _, _) := Locator.first_found h st 0 (Some 1) in
  let '(st2, _, found) := Locator.first_found h st1 0 (Some 1) in
  st2 1 = ["."; "."; "C:\bin"] /\ found = Some "C:\bin\cc.exe".
Proof. cbv zeta. cbn. split; reflexivity. Qed.

(** ** Regular expressions *)

Section Locality.

Import Re.

Lemma strip_prefix_local (literal a : string) :
  Py.count Py.LF literal = 0 ->
  (exists a', forall x,
      Py.strip_prefix literal (a ++ String Py.LF x)
      = Some (a' ++ String Py.LF x)%string)
  \/ (forall x, Py.strip_prefix literal (a ++ String Py.LF x) = None).
Proof.
  revert a. induction literal as [|c l IH]; intros a Hc.
  - left. exists a. reflexivity.
  - cbn [Py.count] in Hc.
    destruct (Ascii.eqb c Py.LF) eqn:Hlf; [discriminate|].
    destruct a as [|b a].
    + right. intros x. cbn. rewrite Hlf. reflexivity.
    + cbn [append Py.strip_prefix].
      destruct (Ascii.eqb c b).
      * apply IH. exact Hc.
      * right. reflexivity.
Qed.

Lemma span_local (cls : ascii -> bool) (a : string) :
  cls Py.LF = false ->
  exists run a', forall x,
      span cls (a ++ String Py.LF x) = (run, (a' ++ String Py.LF x)%string).
Proof.
  intros Hcls. induction a as [|c a IH].
  - exists EmptyString, EmptyString. intros x. cbn. rewrite Hcls. reflexivity.
  - destruct IH as [run [a' IH]].
    destruct (cls c) eqn:Hc.
    + exists (String c run), a'. intros x.
      cbn [append span]. rewrite Hc, IH. reflexivity.
    + exists EmptyString, (String c a). intros x.
      cbn [append span]. rewrite Hc. reflexivity.
Qed.

Lemma literal_run_local (literal : string) (cls : ascii -> bool) (a : string) :
  Py.count Py.LF literal = 0 -> cls Py.LF = false ->
  (exists run a', forall x,
      literal_run literal cls (a ++ String Py.LF x)
      = Some (run, (a' ++ String Py.LF x)%string))
  \/ (forall x, literal_run literal cls (a ++ String Py.LF x) = None).
Proof.
  intros Hlit Hcls. unfold literal_run.
  destruct (strip_prefix_local literal a Hlit) as [[a1 H1]|H1].
  - destruct (span_local cls a1 Hcls) as [run [a2 H2]].
    destruct run as [|c run].
    + right. intros x. rewrite H1, H2. reflexivity.
    + left. exists (String c run), a2. intros x. rewrite H1, H2. reflexivity.
  - right. intros x. rewrite H1. reflexivity.
Qed.

Lemma msvc_banner_local : line_local msvc_banner.
Proof.
  intros a x y. unfold msvc_banner.
  destruct (literal_run_local
              "Microsoft (R) C/C++ Optimizing Compiler Version "
              is_version_char a eq_refl eq_refl) as [[version [a1 H1]]|H1].
  - rewrite (H1 x), (H1 y).
    destruct (literal_run_local " for " is_word_char a1 eq_refl eq_refl)
      as [[arch [a2 H2]]|H2].
    + rewrite (H2 x), (H2 y). reflexivity.
    + rewrite (H2 x), (H2 y). reflexivity.
  - rewrite (H1 x), (H1 y). reflexivity.
Qed.

(** Lines that do not match can be dropped from the front of the text. *)
Lemma search_after_newlines_skip {A : Type} (m : string -> option A)
  (p rest : string) :
  line_local m ->
  search_after_newlines m (p ++ String Py.LF EmptyString) = None ->
  search_after_newlines m (p ++ String Py.LF rest) = search_multiline m rest.
Proof.
  intros Hloc. induction p as [|c p IH]; intros Hnone.
  - cbn [append search_after_newlines]. rewrite Ascii.eqb_refl.
    reflexivity.
  - cbn [append search_after_newlines] in *.
    destruct (Ascii.eqb c Py.LF).
    + rewrite (Hloc p rest EmptyString).
      destruct (m (p ++ String Py.LF EmptyString)%string);
        [discriminate|].
      apply IH. exact Hnone.
    + apply IH. exact Hnone.
Qed.

Lemma search_multiline_skip {A : Type} (m : string -> option A)
  (p rest : string) :
  line_local m ->
  search_multiline m (p ++ String Py.LF EmptyString) = None ->
  search_multiline m (p ++ String Py.LF rest) = search_multiline m rest.
Proof.
  intros Hloc Hnone. unfold search_multiline in Hnone.
  unfold search_multiline at 1.
  rewrite (Hloc p rest EmptyString).
  destruct (m (p ++ String Py.LF EmptyString)%string); [discriminate|].
  apply search_after_newlines_skip; assumption.
Qed.

Lemma msvc_banner_fixture (post : string) :
  at_eol post = true ->
  msvc_banner (Fixtures.banner ++ post) = Some ("19.0", "x64").
Proof.
  intros Heol. destruct post as [|c post].
  - reflexivity.
  - cbn [at_eol] in Heol. apply Ascii.eqb_eq in Heol. subst c.
    reflexivity.
Qed.

End Locality.

(** ** Toolchain identifier *)

Lemma identify_cc_banner (h : Host) (path out pre post : string) :
  Popen h [path] = Ok (out, (pre ++ Fixtures.banner ++ post)%string) ->
  pre = EmptyString
  \/ (exists p, pre = (p ++ String Py.LF EmptyString)%string
                /\ Re.search_multiline Re.msvc_banner pre = None) ->
  Re.at_eol post = true ->
  identify_cc h path
  = Ok ("msvc", [19; 0]%Z, Triple.Make "x64" "win" "msvc").
Proof.
  intros Hrun Hpre Hpost.
  assert (Hsearch : Re.search_multiline Re.msvc_banner
                      (pre ++ Fixtures.banner ++ post)
                    = Some ("19.0", "x64")).
  { destruct Hpre as [->|[p [-> Hnone]]].
    - cbn [append]. unfold Re.search_multiline.
      rewrite msvc_banner_fixture by exact Hpost. reflexivity.
    - rewrite string_app_assoc. cbn [append].
      rewrite (search_multiline_skip Re.msvc_banner p _
                 msvc_banner_local Hnone).
      unfold Re.search_multiline.
      rewrite msvc_banner_fixture by exact Hpost. reflexivity. }
  unfold identify_cc. rewrite Hrun. cbn [bind]. rewrite Hsearch.
  reflexivity.
Qed.

Lemma identify_cc_unknown (h : Host) (path out1 err1 out2 err2 : string) :
  Popen h [path] = Ok (out1, err1) ->
  Re.search_multiline Re.msvc_banner err1 = None ->
  Popen h [path; "-v"] = Ok (out2, err2) ->
  Re.search_multiline Re.gcc_version err2 = None
  \/ Re.search_multiline Re.target_line err2 = None ->
  identify_cc h path = Ok ("unknown", [], unknown_triple).
Proof.
  intros H1 Hm H2 Hg. unfold identify_cc.
  rewrite H1. cbn [bind]. rewrite Hm, H2. cbn [bind].
  destruct Hg as [Hg|Hg]; rewrite Hg.
  - reflexivity.
  - destruct (Re.search_multiline Re.gcc_version err2); reflexivity.
Qed.

Lemma bind_Ok {A B : Type} (c : Res A) (k : A -> Res B) (b : B) :
  bind c k = Ok b -> exists a, c = Ok a /\ k a = Ok b.
Proof.
  destruct c as [a|e]; cbn [bind]; intros H; [|discriminate].
  exists a. split; [reflexivity|exact H].
Qed.

Lemma identify_cc_unknown_is_whole (h : Host) (path kind : string)
  (version : Version) (target : Triple.t) :
  identify_cc h path = Ok (kind, version, target) ->
  kind = "unknown" ->
  version = [] /\ target = unknown_triple.
Proof.
  unfold identify_cc. intros H Hkind.
  apply bind_Ok in H. destruct H as [[out1 err1] [_ H]].
  destruct (Re.search_multiline Re.msvc_banner err1) as [[m1 m2]|].
  - apply bind_Ok in H. destruct H as [v [_ H]].
    injection H as <- _ _. discriminate Hkind.
  - apply bind_Ok in H. destruct H as [[out2 err2] [_ H]].
    destruct (Re.search_multiline Re.gcc_version err2) as [g1|];
      [destruct (Re.search_multiline Re.target_line err2) as [t1|]|].
    + apply bind_Ok in H. destruct H as [v [_ H]].
      apply bind_Ok in H. destruct H as [t [_ H]].
      injection H as <- _ _. discriminate Hkind.
    + injection H as _ <- <-. split; reflexivity.
    + injection H as _ <- <-. split; reflexivity.
Qed.

(** C9. A candidate whose standard error, read after a run without
    arguments, holds the banner line of version 19.0 for x64, before any
    other line the banner pattern matches, is identified as msvc, version
    (19, 0), triple (x64, win, msvc).  A candidate whose two outputs match
    neither the banner nor both lines of the [-v] protocol is identified
    as exactly (unknown, (), unknown-unknown-unknown); and whenever the
    kind returned is unknown, the version is empty and the triple is the
    unknown one. *)
Theorem identify_cc_classifies (h : Host) (path : string) :
  (forall out pre post : string,
      Popen h [path] = Ok (out, (pre ++ Fixtures.banner ++ post)%string) ->
      pre = EmptyString
      \/ (exists p, pre = (p ++ String Py.LF EmptyString)%string
                    /\ Re.search_multiline Re.msvc_banner pre = None) ->
      Re.at_eol post = true ->
      identify_cc h path
      = Ok ("msvc", [19; 0]%Z, Triple.Make "x64" "win" "msvc"))
  /\ (forall out1 err1 out2 err2 : string,
        Popen h [path] = Ok (out1, err1) ->
        Re.search_multiline Re.msvc_banner err1 = None ->
        Popen h [path; "-v"] = Ok (out2, err2) ->
        Re.search_multiline Re.gcc_version err2 = None
        \/ Re.search_multiline Re.target_line err2 = None ->
        identify_cc h path = Ok ("unknown", [], unknown_triple))
  /\ (forall (kind : string) (version : Version) (target : Triple.t),
        identify_cc h path = Ok (kind, version, target) ->
        kind = "unknown" ->
        version = [] /\ target = unknown_triple).
Proof.
  split; [|split].
  - intros out pre post. apply identify_cc_banner.
  - intros out1 err1 out2 err2. apply identify_cc_unknown.
  - intros kind version target. apply identify_cc_unknown_is_whole.
Qed.

Lemma identify_cc_classifies_witness :
  let cl := Fixtures.linux [] [] [(["cl"], (EmptyString, Fixtures.banner))] in
  let tool :=
    Fixtures.linux [] []
      [(["tool"], (EmptyString, "hello"));
       (["tool"; "-v"], (EmptyString, "tool: unknown option -v"))] in
  identify_cc cl "cl" = Ok ("msvc", [19; 0]%Z, Triple.Make "x64" "win" "msvc")
  /\ identify_cc tool "tool" = Ok ("unknown", [], unknown_triple)
  /\ ([] : Version) = [] /\ unknown_triple = unknown_triple.
Proof.
  cbv zeta. split; [|split].
  - apply (proj1 (identify_cc_classifies
                    (Fixtures.linux [] []
                       [(["cl"], (EmptyString, Fixtures.banner))]) "cl")
             EmptyString EmptyString EmptyString).
    + reflexivity.
    + left. reflexivity.
    + reflexivity.
  - apply (proj1 (proj2 (identify_cc_classifies
                    (Fixtures.linux [] []
                       [(["tool"], (EmptyString, "hello"));
                        (["tool"; "-v"],
                         (EmptyString, "tool: unknown option -v"))]) "tool"))
             EmptyString "hello" EmptyString "tool: unknown option -v").
    + reflexivity.
    + reflexivity.
    + reflexivity.
    + left. reflexivity.
  - apply (proj2 (proj2 (identify_cc_classifies
                    (Fixtures.linux [] []
                       [(["tool"], (EmptyString, "hello"));
                        (["tool"; "-v"],
                         (EmptyString, "tool: unknown option -v"))]) "tool"))
             "unknown" [] unknown_triple).
    + reflexivity.
    + reflexivity.
Defined.

Example identify_cc_gcc :
  let h :=
    Fixtures.linux [] []
      [(["gcc"], (EmptyString, Fixtures.lines ["gcc: no input files"]));
       (["gcc"; "-v"],
        (EmptyString,
         Fixtures.lines ["Using built-in specs."; "Target: x86_64-linux-gnu";
                         "Thread model: posix"; "gcc version 4.8.1 (GCC)"]))] in
  identify_cc h "gcc"
  = Ok ("gcc", [4; 8; 1]%Z, Triple.Make "x86_64" "linux" "gnu").
Proof. reflexivity. Qed.

(** A target of one component, as MinGW prints it, ends the
    identification with the [TypeError] of [Triple.parse]. *)
Example identify_cc_mingw :
  let h :=
    Fixtures.linux [] []
      [(["gcc"], (EmptyString, Fixtures.lines ["gcc: no input files"]));
       (["gcc"; "-v"],
        (EmptyString,
         Fixtures.lines ["Target: mingw32"; "gcc version 4.8.1 (GCC)"]))] in
  identify_cc h "gcc" = Raise TypeError.
Proof. reflexivity. Qed.

Example identify_make_ninja :
  let h :=
    Fixtures.linux [] []
      [(["ninja"; "--version"], (Fixtures.lines ["1.5.1"], EmptyString));
       (["ninja"; "--help"],
        (EmptyString,
         Fixtures.lines ["usage: ninja [options] [targets...]"]))] in
  identify_make h "ninja" = Ok ("ninja", [1; 5; 1]%Z).
Proof. reflexivity. Qed.

(** C1, as the specification states it, fails: when the candidate cannot
    be launched, [Popen] raises [OSError] and neither operation catches
    it, so no unknown sentinel is returned. *)
Lemma identify_launch_failure_raises :
  let h := Fixtures.linux [] [] [] in
  identify_cc h "/usr/bin/cc" = Raise OSError
  /\ identify_cc h "/usr/bin/cc" <> Ok ("unknown", [], unknown_triple)
  /\ identify_make h "/usr/bin/make" = Raise OSError
  /\ identify_make h "/usr/bin/make" <> Ok ("unknown", []).
Proof.
  cbv zeta. repeat split; try reflexivity; discriminate.
Qed.

(** C1, amended. The exception of a probe that cannot be launched leaves
    [identify_cc] and [identify_make] as it is, from the first probe and
    from the second alike; when both probes run and their output matches
    no pattern, [identify_cc] returns the unknown sentinel and
    [identify_make] returns (unknown, ()). *)
Theorem identify_propagates_launch_failure (h : Host) (path : string) :
  (forall e : exn,
      Popen h [path] = Raise e -> identify_cc h path = Raise e)
  /\ (forall (e : exn) (out1 err1 : string),
        Popen h [path] = Ok (out1, err1) ->
        Re.search_multiline Re.msvc_banner err1 = None ->
        Popen h [path; "-v"] = Raise e ->
        identify_cc h path = Raise e)
  /\ (forall e : exn,
        Popen h [path; "--version"] = Raise e ->
        identify_make h path = Raise e)
  /\ (forall (e : exn) (out1 err1 : string),
        Popen h [path; "--version"] = Ok (out1, err1) ->
        Re.gnu_make out1 = None ->
        Popen h [path; "--help"] = Raise e ->
        identify_make h path = Raise e)
  /\ (forall out1 err1 out2 err2 : string,
        Popen h [path] = Ok (out1, err1) ->
        Re.search_multiline Re.msvc_banner err1 = None ->
        Popen h [path; "-v"] = Ok (out2, err2) ->
        Re.search_multiline Re.gcc_version err2 = None
        \/ Re.search_multiline Re.target_line err2 = None ->
        identify_cc h path = Ok ("unknown", [], unknown_triple))
  /\ (forall out1 err1 out2 err2 : string,
        Popen h [path; "--version"] = Ok (out1, err1) ->
        Re.gnu_make out1 = None ->
        Popen h [path; "--help"] = Ok (out2, err2) ->
        Re.usage_ninja err2 = false ->
        identify_make h path = Ok ("unknown", [])).
Proof.
  repeat split.
  - intros e H. unfold identify_cc. rewrite H. reflexivity.
  - intros e out1 err1 H1 Hm H2. unfold identify_cc.
    rewrite H1. cbn [bind]. rewrite Hm, H2. reflexivity.
  - intros e H. unfold identify_make. rewrite H. reflexivity.
  - intros e out1 err1 H1 Hm H2. unfold identify_make.
    rewrite H1. cbn [bind]. rewrite Hm, H2. reflexivity.
  - intros out1 err1 out2 err2. apply identify_cc_unknown.
  - intros out1 err1 out2 err2 H1 Hm H2 Hn. unfold identify_make.
    rewrite H1. cbn [bind]. rewrite Hm, H2. cbn [bind]. rewrite Hn.
    reflexivity.
Qed.

Lemma identify_propagates_launch_failure_witness :
  let none := Fixtures.linux [] [] [] in
  let once :=
    Fixtures.linux [] []
      [(["tool"], (EmptyString, "hello"));
       (["tool"; "--version"], ("tool 1.0", EmptyString))] in
  let both :=
    Fixtures.linux [] []
      [(["tool"], (EmptyString, "hello"));
       (["tool"; "-v"], (EmptyString, "tool: unknown option -v"));
       (["tool"; "--version"], ("tool 1.0", EmptyString));
       (["tool"; "--help"], (EmptyString, "usage: tool"))] in
  identify_cc none "tool" = Raise OSError
  /\ identify_cc once "tool" = Raise OSError
  /\ identify_make none "tool" = Raise OSError
  /\ identify_make once "tool" = Raise OSError
  /\ identify_cc both "tool" = Ok ("unknown", [], unknown_triple)
  /\ identify_make both "tool" = Ok ("unknown", []).
Proof.
  cbv zeta.
  pose proof (identify_propagates_launch_failure
                (Fixtures.linux [] [] []) "tool") as [N1 [_ [N3 _]]].
  pose proof (identify_propagates_launch_failure
                (Fixtures.linux [] []
                   [(["tool"], (EmptyString, "hello"));
                    (["tool"; "--version"], ("tool 1.0", EmptyString))])
                "tool") as [_ [O2 [_ [O4 _]]]].
  pose proof (identify_propagates_launch_failure
                (Fixtures.linux [] []
                   [(["tool"], (EmptyString, "hello"));
                    (["tool"; "-v"], (EmptyString, "tool: unknown option -v"));
                    (["tool"; "--version"], ("tool 1.0", EmptyString));
                    (["tool"; "--help"], (EmptyString, "usage: tool"))])
                "tool") as [_ [_ [_ [_ [B5 B6]]]]].
  split; [apply N1; reflexivity|].
  split; [apply (O2 OSError EmptyString "hello"); reflexivity|].
  split; [apply N3; reflexivity|].
  split; [apply (O4 OSError "tool 1.0" EmptyString); reflexivity|].
  split.
  - apply (B5 EmptyString "hello" EmptyString "tool: unknown option -v");
      try reflexivity. left. reflexivity.
  - apply (B6 "tool 1.0" EmptyString EmptyString "usage: tool"); reflexivity.
Defined.

(** ** Flag regeneration *)

Lemma list_in_In (x : string) (l : list string) :
  list_in x l = true <-> In x l.
Proof.
  unfold list_in. rewrite existsb_exists. split.
  - intros [y [Hy Heq]]. apply String.eqb_eq in Heq. subst y. exact Hy.
  - intros Hin. exists x. split; [exact Hin|apply String.eqb_refl].
Qed.

Lemma list_in_not_In (x : string) (l : list string) :
  list_in x l = false <-> ~ In x l.
Proof.
  rewrite <- list_in_In. destruct (list_in x l); split; intros H;
    try discriminate; try reflexivity; auto.
  exfalso. apply H. reflexivity.
Qed.

Lemma filter_differs_absent (v : string) (l : list string) :
  ~ In v l -> filter (differs_from v) l = l.
Proof.
  induction l as [|y l IH]; intros Hnin; [reflexivity|].
  cbn [filter]. unfold differs_from at 1.
  destruct (String.eqb y v) eqn:Hy.
  - apply String.eqb_eq in Hy. subst y. exfalso. apply Hnin. left. reflexivity.
  - cbn [negb]. rewrite IH; [reflexivity|].
    intros Hin. apply Hnin. right. exact Hin.
Qed.

(** On a list without repetition, [remove] takes away every [v]. *)
Lemma list_remove_filter (v : string) (l : list string) :
  NoDup l -> list_remove v l = filter (differs_from v) l.
Proof.
  induction l as [|y l IH]; intros Hnd; [reflexivity|].
  inversion Hnd as [|y' l' Hnin Hnd']; subst.
  cbn [list_remove filter]. unfold differs_from at 1.
  destruct (String.eqb y v) eqn:Hy.
  - apply String.eqb_eq in Hy. subst y. cbn [negb].
    symmetry. apply filter_differs_absent. exact Hnin.
  - cbn [negb]. rewrite IH by exact Hnd'. reflexivity.
Qed.

Lemma move_to_end_filter (l : list string) (v : string) :
  NoDup l -> move_to_end l v = filter (differs_from v) l ++ [v].
Proof.
  intros Hnd. unfold move_to_end.
  destruct (list_in v l) eqn:Hin.
  - rewrite list_remove_filter by exact Hnd. reflexivity.
  - apply list_in_not_In in Hin.
    rewrite filter_differs_absent by exact Hin. reflexivity.
Qed.

Lemma NoDup_filter_str (f : string -> bool) (l : list string) :
  NoDup l -> NoDup (filter f l).
Proof.
  induction l as [|y l IH]; intros Hnd; [constructor|].
  inversion Hnd as [|y' l' Hnin Hnd']; subst.
  cbn [filter]. destruct (f y).
  - constructor; [|apply IH; exact Hnd'].
    intros Hin. apply filter_In in Hin. apply Hnin. apply Hin.
  - apply IH. exact Hnd'.
Qed.

Lemma move_to_end_NoDup (l : list string) (v : string) :
  NoDup l -> NoDup (move_to_end l v).
Proof.
  intros Hnd. rewrite move_to_end_filter by exact Hnd.
  apply NoDup_app.
  - apply NoDup_filter_str. exact Hnd.
  - constructor; [intros []|constructor].
  - intros x Hin [<-|[]].
    apply filter_In in Hin. destruct Hin as [_ Hd].
    unfold differs_from in Hd. rewrite String.eqb_refl in Hd.
    discriminate Hd.
Qed.

Lemma filter_twice (f g : string -> bool) (l : list string) :
  filter g (filter f l) = filter (fun x => f x && g x) l.
Proof.
  induction l as [|y l IH]; [reflexivity|].
  cbn [filter]. destruct (f y); cbn [andb filter].
  - rewrite IH. reflexivity.
  - exact IH.
Qed.

(** The first loop of [RegenerateAppendFlag] keeps, of the flags so far,
    those that do not come again, and, of those that come, the last of
    each. *)
Lemma fold_move_to_end (toks acc : list string) :
  NoDup acc ->
  fold_left move_to_end toks acc
  = filter (fun x => negb (list_in x toks)) acc ++ last_write_wins toks.
Proof.
  revert acc. induction toks as [|v toks IH]; intros acc Hnd.
  - cbn [fold_left last_write_wins list_in existsb negb].
    rewrite app_nil_r. symmetry.
    clear Hnd. induction acc as [|y acc IHa]; [reflexivity|].
    cbn [filter]. rewrite IHa. reflexivity.
  - cbn [fold_left]. rewrite IH by (apply move_to_end_NoDup; exact Hnd).
    rewrite move_to_end_filter by exact Hnd.
    rewrite filter_app, filter_twice. cbn [filter last_write_wins].
    rewrite <- app_assoc.
    f_equal.
    + apply filter_ext. intros x. unfold differs_from, list_in.
      cbn [existsb]. rewrite negb_orb. reflexivity.
    + destruct (list_in v toks); reflexivity.
Qed.

Lemma last_write_wins_In (l : list string) (x : string) :
  In x (last_write_wins l) <-> In x l.
Proof.
  induction l as [|y l IH]; [reflexivity|].
  cbn [last_write_wins]. destruct (list_in y l) eqn:Hy.
  - rewrite IH. split; [intros H; right; exact H|].
    intros [<-|H]; [|exact H]. apply list_in_In. exact Hy.
  - cbn [In]. rewrite IH. reflexivity.
Qed.

Lemma last_write_wins_NoDup (l : list string) : NoDup (last_write_wins l).
Proof.
  induction l as [|y l IH]; [constructor|].
  cbn [last_write_wins]. destruct (list_in y l) eqn:Hy; [exact IH|].
  constructor; [|exact IH].
  rewrite last_write_wins_In. apply list_in_not_In. exact Hy.
Qed.

Section RegenerationFacts.

Variable h : Host.

Lemma append_env_flags_fold (flag : string) (predicate : PyVal -> Res PyVal)
  (env_values env_flags acc : list string) :
  mapM (fun x => format_value h flag predicate (VStr x)) env_values
  = Ok env_flags ->
  append_env_flags h flag predicate acc env_values
  = Ok (fold_left move_to_end env_flags acc).
Proof.
  revert env_flags acc. induction env_values as [|x xs IH];
    intros env_flags acc Hm.
  - injection Hm as <-. reflexivity.
  - cbn [mapM] in Hm. cbn [append_env_flags].
    destruct (format_value h flag predicate (VStr x)) as [v|e];
      [|discriminate]. cbn [bind] in *.
    destruct (mapM (fun x => format_value h flag predicate (VStr x)) xs)
      as [vs|e]; [|discriminate]. cbn [bind] in Hm.
    injection Hm as <-. cbn [fold_left]. apply IH. reflexivity.
Qed.

Lemma append_value_flags_app (flag : string) (predicate : PyVal -> Res PyVal)
  (values value_flags acc : list string) :
  mapM (fun x => format_value h flag predicate (VStr x)) values
  = Ok value_flags ->
  append_value_flags h flag predicate acc values = Ok (acc ++ value_flags).
Proof.
  revert value_flags acc. induction values as [|x xs IH];
    intros value_flags acc Hm.
  - injection Hm as <-. rewrite app_nil_r. reflexivity.
  - cbn [mapM] in Hm. cbn [append_value_flags].
    destruct (format_value h flag predicate (VStr x)) as [v|e];
      [|discriminate]. cbn [bind] in *.
    destruct (mapM (fun x => format_value h flag predicate (VStr x)) xs)
      as [vs|e]; [|discriminate]. cbn [bind] in Hm.
    injection Hm as <-. rewrite (IH vs) by reflexivity.
    rewrite <- app_assoc. reflexivity.
Qed.

Lemma append_values_part (flag : string) (predicate : PyVal -> Res PyVal)
  (values value_flags acc : list string) :
  mapM (fun x => format_value h flag predicate (VStr x)) values
  = Ok value_flags ->
  (if truthy (VList values)
   then items <- py_iter (VList values) ;;
        append_value_flags h flag predicate acc items
   else Ok acc) = Ok (acc ++ value_flags).
Proof.
  intros Hm. destruct values as [|x xs].
  - injection Hm as <-. cbn. rewrite app_nil_r. reflexivity.
  - cbn [truthy py_iter bind]. apply append_value_flags_app. exact Hm.
Qed.

End RegenerationFacts.

(** C6. For an option of action append with a registered environment
    variable, with the environment in use, the flags are: one formatted
    token for each shell token of the variable, of equal tokens only the
    last, where it stands; then one token for each value given
    explicitly, whatever came before.  Without the environment in use
    only the tokens of the explicit values are there. *)
Theorem RegenerateAppendFlag_environment_then_values (h : Host)
  (flag : string) (predicate : PyVal -> Res PyVal) (name : string)
  (options : Options) (values value_flags : list string) :
  mapM (fun x => format_value h flag predicate (VStr x)) values
  = Ok value_flags ->
  (forall env_values env_flags : list string,
      use_environment options = true ->
      name <> EmptyString ->
      ShlexEnv h name = Ok env_values ->
      mapM (fun x => format_value h flag predicate (VStr x)) env_values
      = Ok env_flags ->
      RegenerateAppendFlag h flag (VList values) predicate (Some name) options
      = Ok (last_write_wins env_flags ++ value_flags)
      /\ NoDup (last_write_wins env_flags)
      /\ (forall x, In x (last_write_wins env_flags) <-> In x env_flags))
  /\ (use_environment options = false ->
      RegenerateAppendFlag h flag (VList values) predicate (Some name) options
      = Ok value_flags).
Proof.
  intros Hvalues. split.
  - intros env_values env_flags Huse Hname Henv Hflags.
    split; [|split].
    + unfold RegenerateAppendFlag. rewrite Huse.
      destruct name as [|c name]; [contradiction|]. cbn [nonempty].
      rewrite Henv. cbn [bind].
      rewrite (append_env_flags_fold h flag predicate _ _ _ Hflags).
      cbn [bind]. rewrite fold_move_to_end by constructor.
      cbn [filter app].
      apply append_values_part. exact Hvalues.
    + apply last_write_wins_NoDup.
    + intros x. apply last_write_wins_In.
  - intros Huse. unfold RegenerateAppendFlag. rewrite Huse. cbn [bind].
    apply (append_values_part h flag predicate values value_flags []).
    exact Hvalues.
Qed.

Lemma RegenerateAppendFlag_environment_then_values_witness :
  let h := Fixtures.linux [("GYP_DEFINES", "A B")] [] [] in
  let on := {| use_environment := true; depth := VStr ".";
               getattr := fun _ => VNone; regeneration_metadata := [] |} in
  let off := {| use_environment := false; depth := VStr ".";
                getattr := fun _ => VNone; regeneration_metadata := [] |} in
  RegenerateAppendFlag h "-D" (VList ["C"]) Noop (Some "GYP_DEFINES") on
  = Ok ["-DA"; "-DB"; "-DC"]
  /\ RegenerateAppendFlag h "-D" (VList ["C"]) Noop (Some "GYP_DEFINES") off
     = Ok ["-DC"].
Proof.
  cbv zeta. split.
  - apply (proj1 (RegenerateAppendFlag_environment_then_values
                    (Fixtures.linux [("GYP_DEFINES", "A B")] [] [])
                    "-D" Noop "GYP_DEFINES"
                    {| use_environment := true; depth := VStr ".";
                       getattr := fun _ => VNone;
                       regeneration_metadata := [] |}
                    ["C"] ["-DC"] eq_refl)
             ["A"; "B"] ["-DA"; "-DB"]); try reflexivity.
    discriminate.
  - apply (proj2 (RegenerateAppendFlag_environment_then_values
                    (Fixtures.linux [("GYP_DEFINES", "A B")] [] [])
                    "-D" Noop "GYP_DEFINES"
                    {| use_environment := false; depth := VStr ".";
                       getattr := fun _ => VNone;
                       regeneration_metadata := [] |}
                    ["C"] ["-DC"] eq_refl)).
    reflexivity.
Defined.

Example RegenerateAppendFlag_repeated_token :
  let h := Fixtures.linux [("GYP_DEFINES", "A B A")] [] [] in
  let on := {| use_environment := true; depth := VStr ".";
               getattr := fun _ => VNone; regeneration_metadata := [] |} in
  RegenerateAppendFlag h "-D" (VList ["B"]) Noop (Some "GYP_DEFINES") on
  = Ok ["-DB"; "-DA"; "-DB"].
Proof. reflexivity. Qed.

Section OptionFacts.

Variable h : Host.
Variable FixIfRelativePath : string -> PyVal -> string.

(** A string always formats: with either predicate and either form of
    flag. *)
Lemma format_value_str (options : Options) (metadata : Metadata)
  (s : string) :
  exists flag,
    format_value h (opt metadata)
      (value_predicate h FixIfRelativePath options metadata) (VStr s)
    = Ok flag.
Proof.
  unfold format_value, value_predicate.
  destruct (is_action (type metadata) "path").
  - unfold FixPath.
    destruct (FixIfRelativePath s (depth options)); cbn [bind];
      unfold FormatOpt; destruct (Py.startswith (opt metadata) "--");
      eexists; reflexivity.
  - unfold Noop. cbn [bind]. unfold FormatOpt.
    destruct (Py.startswith (opt metadata) "--"); eexists; reflexivity.
Qed.

Lemma regenerate_loop_step (options : Options) (name : string)
  (metadata : Metadata) (rest : list (string * Metadata))
  (flags fs : list string) (stderr ws : list Warning) :
  regenerate_option h FixIfRelativePath options name metadata = Ok (fs, ws) ->
  regenerate_loop h FixIfRelativePath options ((name, metadata) :: rest)
    flags stderr
  = regenerate_loop h FixIfRelativePath options rest
      (flags ++ fs) (stderr ++ ws).
Proof.
  intros H. cbn [regenerate_loop]. rewrite H. reflexivity.
Qed.

Lemma store_explicit (options : Options) (name : string)
  (metadata : Metadata) (s : string) :
  action metadata = Some "store" \/ action metadata = None ->
  getattr options name = VStr s -> s <> EmptyString ->
  exists flag,
    format_value h (opt metadata)
      (value_predicate h FixIfRelativePath options metadata) (VStr s)
    = Ok flag
    /\ regenerate_option h FixIfRelativePath options name metadata
       = Ok ([flag], []).
Proof.
  intros Hact Hval Hs.
  destruct (format_value_str options metadata s) as [flag Hflag].
  exists flag. split; [exact Hflag|].
  unfold regenerate_option. rewrite Hval.
  assert (Ht : truthy (VStr s) = true)
    by (destruct s; [contradiction|reflexivity]).
  rewrite Ht.
  destruct Hact as [-> | ->]; cbn -[format_value value_predicate];
    rewrite Hflag; reflexivity.
Qed.

Lemma store_fallback (options : Options) (name : string)
  (metadata : Metadata) (e env_value : string) :
  action metadata = Some "store" \/ action metadata = None ->
  truthy (getattr options name) = false ->
  use_environment options = true ->
  nonempty (env_name metadata) = Some e ->
  nonempty (os_environ h e) = Some env_value ->
  exists flag,
    format_value h (opt metadata)
      (value_predicate h FixIfRelativePath options metadata) (VStr env_value)
    = Ok flag
    /\ regenerate_option h FixIfRelativePath options name metadata
       = Ok ([flag], []).
Proof.
  intros Hact Hval Huse He Henv.
  destruct (format_value_str options metadata env_value) as [flag Hflag].
  exists flag. split; [exact Hflag|].
  unfold regenerate_option. rewrite Hval, Huse, He, Henv.
  destruct Hact as [-> | ->]; cbn -[format_value value_predicate];
    rewrite Hflag; reflexivity.
Qed.

Lemma store_nothing (options : Options) (name : string)
  (metadata : Metadata) :
  action metadata = Some "store" \/ action metadata = None ->
  truthy (getattr options name) = false ->
  use_environment options = false
  \/ nonempty (env_name metadata) = None
  \/ (exists e, nonempty (env_name metadata) = Some e
                /\ nonempty (os_environ h e) = None) ->
  regenerate_option h FixIfRelativePath options name metadata = Ok ([], []).
Proof.
  intros Hact Hval Hno.
  unfold regenerate_option. rewrite Hval.
  destruct Hact as [-> | ->]; cbn -[format_value value_predicate];
    (destruct Hno as [-> | [-> | [e [-> ->]]]];
     [reflexivity
     |destruct (use_environment options); reflexivity
     |destruct (use_environment options); reflexivity]).
Qed.

End OptionFacts.

(** C7, as the specification states it, fails at the empty string.  An
    option that holds the empty string, as [--config-dir=] gives it, gets
    no token for that value: with [GYP_CONFIG_DIR] set the token is the
    one of the environment, and without it there is none.  And a
    variable that is set, but to the empty string, gives no token
    either. *)
Lemma store_empty_string_is_no_value :
  let metadata := {| action := Some "store"; type := None;
                     env_name := Some "GYP_CONFIG_DIR";
                     opt := "--config-dir" |} in
  let holds value := {| use_environment := true; depth := VStr ".";
                        getattr := fun _ => value;
                        regeneration_metadata :=
                          [("config_dir", metadata)] |} in
  let set := Fixtures.linux [("GYP_CONFIG_DIR", "/etc/gyp")] [] [] in
  let unset := Fixtures.linux [] [] [] in
  let empty := Fixtures.linux [("GYP_CONFIG_DIR", EmptyString)] [] [] in
  format_value set "--config-dir" Noop (VStr EmptyString)
  = Ok "--config-dir="
  /\ regenerate_option set Fixtures.keep_path (holds (VStr EmptyString))
       "config_dir" metadata
     = Ok (["--config-dir=/etc/gyp"], [])
  /\ regenerate_option unset Fixtures.keep_path (holds (VStr EmptyString))
       "config_dir" metadata
     = Ok ([], [])
  /\ os_environ empty "GYP_CONFIG_DIR" = Some EmptyString
  /\ regenerate_option empty Fixtures.keep_path (holds VNone)
       "config_dir" metadata
     = Ok ([], [])
  /\ ~ (exists flag,
          regenerate_option set Fixtures.keep_path (holds (VStr EmptyString))
            "config_dir" metadata
          = Ok ([flag], [])
          /\ format_value set "--config-dir" Noop (VStr EmptyString)
             = Ok flag)
  /\ ~ (exists flag,
          regenerate_option empty Fixtures.keep_path (holds VNone)
            "config_dir" metadata
          = Ok ([flag], [])).
Proof.
  cbv zeta. repeat split; try reflexivity.
  - intros [flag [Hc Hf]]. vm_compute in Hc, Hf.
    injection Hf as <-. discriminate Hc.
  - intros [flag Hc]. discriminate Hc.
Qed.

(** C7, amended.  For an option of action store (or of no action, which
    means store): when the value of the option is true, that is a string
    that is not empty, [RegenerateFlags] adds exactly one token,
    formatted from that value; when it is [None] or the empty string,
    the environment is in use and the registered variable is set to a
    string that is not empty, exactly one token, formatted from the value
    of the variable; when the value is [None] or empty and there is no
    such fallback, nothing.  Each time the loop goes on to the next
    option with exactly these tokens added. *)
Theorem store_option_regeneration (h : Host)
  (FixIfRelativePath : string -> PyVal -> string) (options : Options)
  (name : string) (metadata : Metadata) :
  action metadata = Some "store" \/ action metadata = None ->
  let predicate := value_predicate h FixIfRelativePath options metadata in
  let contribution :=
    regenerate_option h FixIfRelativePath options name metadata in
  (forall s : string,
      getattr options name = VStr s -> s <> EmptyString ->
      exists flag,
        format_value h (opt metadata) predicate (VStr s) = Ok flag
        /\ contribution = Ok ([flag], []))
  /\ (forall e env_value : string,
        truthy (getattr options name) = false ->
        use_environment options = true ->
        nonempty (env_name metadata) = Some e ->
        nonempty (os_environ h e) = Some env_value ->
        exists flag,
          format_value h (opt metadata) predicate (VStr env_value) = Ok flag
          /\ contribution = Ok ([flag], []))
  /\ (truthy (getattr options name) = false ->
      use_environment options = false
      \/ nonempty (env_name metadata) = None
      \/ (exists e, nonempty (env_name metadata) = Some e
                    /\ nonempty (os_environ h e) = None) ->
      contribution = Ok ([], []))
  /\ (forall (fs : list string) (rest : list (string * Metadata))
             (flags : list string) (stderr : list Warning),
        contribution = Ok (fs, []) ->
        regenerate_loop h FixIfRelativePath options
          ((name, metadata) :: rest) flags stderr
        = regenerate_loop h FixIfRelativePath options rest
            (flags ++ fs) stderr).
Proof.
  intros Hact predicate contribution. subst predicate contribution.
  split; [|split; [|split]].
  - intros s. apply store_explicit. exact Hact.
  - intros e env_value. apply store_fallback. exact Hact.
  - apply store_nothing. exact Hact.
  - intros fs rest flags stderr Hc.
    rewrite (regenerate_loop_step h FixIfRelativePath options name metadata
               rest flags fs stderr [] Hc).
    rewrite app_nil_r. reflexivity.
Qed.

Lemma store_option_regeneration_witness :
  let h := Fixtures.linux [("GYP_CONFIG_DIR", "/etc/gyp")] [] [] in
  let metadata := {| action := Some "store"; type := None;
                     env_name := Some "GYP_CONFIG_DIR";
                     opt := "--config-dir" |} in
  let given := {| use_environment := true; depth := VStr ".";
                  getattr := fun _ => VStr "cfg";
                  regeneration_metadata := [("config_dir", metadata)] |} in
  let absent := {| use_environment := true; depth := VStr ".";
                   getattr := fun _ => VNone;
                   regeneration_metadata := [("config_dir", metadata)] |} in
  let alone := {| use_environment := false; depth := VStr ".";
                  getattr := fun _ => VNone;
                  regeneration_metadata := [("config_dir", metadata)] |} in
  regenerate_option h Fixtures.keep_path given "config_dir" metadata
  = Ok (["--config-dir=cfg"], [])
  /\ regenerate_option h Fixtures.keep_path absent "config_dir" metadata
     = Ok (["--config-dir=/etc/gyp"], [])
  /\ regenerate_option h Fixtures.keep_path alone "config_dir" metadata
     = Ok ([], [])
  /\ RegenerateFlags h Fixtures.keep_path given
     = Ok (["--ignore-environment"; "--config-dir=cfg"], []).
Proof.
  cbv zeta.
  set (h := Fixtures.linux [("GYP_CONFIG_DIR", "/etc/gyp")] [] []).
  set (metadata := {| action := Some "store"; type := None;
                      env_name := Some "GYP_CONFIG_DIR";
                      opt := "--config-dir" |}).
  split; [|split; [|split]].
  - destruct (proj1 (store_option_regeneration h Fixtures.keep_path
                       {| use_environment := true; depth := VStr ".";
                          getattr := fun _ => VStr "cfg";
                          regeneration_metadata := [("config_dir", metadata)] |}
                       "config_dir" metadata (or_introl eq_refl))
                "cfg" eq_refl ltac:(discriminate)) as [flag [Hf Hc]].
    vm_compute in Hf. injection Hf as <-. exact Hc.
  - destruct (proj1 (proj2 (store_option_regeneration h Fixtures.keep_path
                       {| use_environment := true; depth := VStr ".";
                          getattr := fun _ => VNone;
                          regeneration_metadata := [("config_dir", metadata)] |}
                       "config_dir" metadata (or_introl eq_refl)))
                "GYP_CONFIG_DIR" "/etc/gyp" eq_refl eq_refl eq_refl eq_refl)
      as [flag [Hf Hc]].
    vm_compute in Hf. injection Hf as <-. exact Hc.
  - apply (proj1 (proj2 (proj2 (store_option_regeneration h
                       Fixtures.keep_path
                       {| use_environment := false; depth := VStr ".";
                          getattr := fun _ => VNone;
                          regeneration_metadata := [("config_dir", metadata)] |}
                       "config_dir" metadata (or_introl eq_refl))))).
    + reflexivity.
    + left. reflexivity.
  - unfold RegenerateFlags. cbn [regeneration_metadata].
    rewrite (proj2 (proj2 (proj2 (store_option_regeneration h
                       Fixtures.keep_path
                       {| use_environment := true; depth := VStr ".";
                          getattr := fun _ => VStr "cfg";
                          regeneration_metadata := [("config_dir", metadata)] |}
                       "config_dir" metadata (or_introl eq_refl))))
               ["--config-dir=cfg"] [] ["--ignore-environment"] []).
    + reflexivity.
    + reflexivity.
Defined.

Section UnsupportedFacts.

Variable h : Host.
Variable FixIfRelativePath : string -> PyVal -> string.

Lemma boolean_mismatch_warns (options : Options) (name : string)
  (metadata : Metadata) (a e : string) :
  action metadata = Some a ->
  (a = "store_true" /\ truthy (getattr options name) = false)
  \/ (a = "store_false" /\ truthy (getattr options name) = true) ->
  use_environment options = true ->
  nonempty (env_name metadata) = Some e ->
  regenerate_option h FixIfRelativePath options name metadata
  = Ok ([], [EnvRegenerationUnimplemented a (opt metadata) e]).
Proof.
  intros Hact Hpol Huse He. unfold regenerate_option.
  rewrite Hact, Huse, He.
  destruct Hpol as [[-> ->]|[-> ->]]; reflexivity.
Qed.

Lemma boolean_mismatch_silent (options : Options) (name : string)
  (metadata : Metadata) (a : string) :
  action metadata = Some a ->
  (a = "store_true" /\ truthy (getattr options name) = false)
  \/ (a = "store_false" /\ truthy (getattr options name) = true) ->
  use_environment options = false \/ nonempty (env_name metadata) = None ->
  regenerate_option h FixIfRelativePath options name metadata = Ok ([], []).
Proof.
  intros Hact Hpol Hno. unfold regenerate_option. rewrite Hact.
  destruct Hpol as [[-> ->]|[-> ->]]; cbn;
    (destruct Hno as [-> | ->];
     [reflexivity|destruct (use_environment options); reflexivity]).
Qed.

Lemma other_action_warns (options : Options) (name : string)
  (metadata : Metadata) (a : string) :
  action metadata = Some a ->
  a <> "append" -> a <> "store" -> a <> "store_true" -> a <> "store_false" ->
  regenerate_option h FixIfRelativePath options name metadata
  = Ok ([], [RegenerationUnimplemented (Some a) (opt metadata)]).
Proof.
  intros Hact H1 H2 H3 H4. unfold regenerate_option. rewrite Hact.
  cbn [is_action].
  apply String.eqb_neq in H1, H2, H3, H4.
  rewrite H1, H2, H3, H4. reflexivity.
Qed.

End UnsupportedFacts.

(** C5, as the specification states it, fails: for a store_true option
    with a registered environment variable whose value is false, and for
    an option of action count, [RegenerateFlags] raises nothing; it
    returns its flags, having printed a warning for each. *)
Lemma RegenerateFlags_unsupported_returns :
  let h := Fixtures.linux [] [] [] in
  let options :=
    {| use_environment := true; depth := VStr ".";
       getattr := fun _ => VNone;
       regeneration_metadata :=
         [("check", {| action := Some "store_true"; type := None;
                       env_name := Some "GYP_CHECK"; opt := "--check" |});
          ("verbose", {| action := Some "count"; type := None;
                         env_name := None; opt := "-v" |})] |} in
  RegenerateFlags h Fixtures.keep_path options
  = Ok (["--ignore-environment"],
        [EnvRegenerationUnimplemented "store_true" "--check" "GYP_CHECK";
         RegenerationUnimplemented (Some "count") "-v"])
  /\ ~ (exists e, RegenerateFlags h Fixtures.keep_path options = Raise e).
Proof.
  cbv zeta. split; [reflexivity|].
  intros [e He]. discriminate He.
Qed.

(** C5, amended. An option that cannot be regenerated raises nothing and
    adds no token.  For a store_true or store_false option whose value is
    not the one the action sets, with a registered environment variable:
    a warning is printed when the environment is in use, and nothing is
    printed when it is not.  For any action other than append, store,
    store_true and store_false: a warning is printed.  Each time the loop
    goes on to the next option with the same flags. *)
Theorem unsupported_option_warns (h : Host)
  (FixIfRelativePath : string -> PyVal -> string) (options : Options)
  (name : string) (metadata : Metadata) (a : string) :
  action metadata = Some a ->
  let contribution :=
    regenerate_option h FixIfRelativePath options name metadata in
  (forall e : string,
      (a = "store_true" /\ truthy (getattr options name) = false)
      \/ (a = "store_false" /\ truthy (getattr options name) = true) ->
      nonempty (env_name metadata) = Some e ->
      (use_environment options = true ->
       contribution
       = Ok ([], [EnvRegenerationUnimplemented a (opt metadata) e]))
      /\ (use_environment options = false -> contribution = Ok ([], [])))
  /\ (a <> "append" -> a <> "store" ->
      a <> "store_true" -> a <> "store_false" ->
      contribution
      = Ok ([], [RegenerationUnimplemented (Some a) (opt metadata)]))
  /\ (forall (ws : list Warning) (rest : list (string * Metadata))
             (flags : list string) (stderr : list Warning),
        contribution = Ok ([], ws) ->
        regenerate_loop h FixIfRelativePath options
          ((name, metadata) :: rest) flags stderr
        = regenerate_loop h FixIfRelativePath options rest
            flags (stderr ++ ws)).
Proof.
  intros Hact contribution. subst contribution.
  split; [|split].
  - intros e Hpol He. split; intros Huse.
    + apply (boolean_mismatch_warns h FixIfRelativePath options name
               metadata a e); assumption.
    + apply (boolean_mismatch_silent h FixIfRelativePath options name
               metadata a); try assumption. left. exact Huse.
  - apply other_action_warns. exact Hact.
  - intros ws rest flags stderr Hc.
    rewrite (regenerate_loop_step h FixIfRelativePath options name metadata
               rest flags [] stderr ws Hc).
    rewrite app_nil_r. reflexivity.
Qed.

Lemma unsupported_option_warns_witness :
  let h := Fixtures.linux [] [] [] in
  let check := {| action := Some "store_true"; type := None;
                  env_name := Some "GYP_CHECK"; opt := "--check" |} in
  let verbose := {| action := Some "count"; type := None;
                    env_name := None; opt := "-v" |} in
  let options := {| use_environment := true; depth := VStr ".";
                    getattr := fun _ => VNone;
                    regeneration_metadata := [] |} in
  regenerate_option h Fixtures.keep_path options "check" check
  = Ok ([], [EnvRegenerationUnimplemented "store_true" "--check" "GYP_CHECK"])
  /\ regenerate_option h Fixtures.keep_path options "verbose" verbose
     = Ok ([], [RegenerationUnimplemented (Some "count") "-v"])
  /\ regenerate_loop h Fixtures.keep_path options [("verbose", verbose)]
       ["--ignore-environment"] []
     = Ok (["--ignore-environment"],
           [RegenerationUnimplemented (Some "count") "-v"]).
Proof.
  cbv zeta.
  set (h := Fixtures.linux [] [] []).
  set (options := {| use_environment := true; depth := VStr ".";
                     getattr := fun _ => VNone;
                     regeneration_metadata := [] |}).
  set (check := {| action := Some "store_true"; type := None;
                   env_name := Some "GYP_CHECK"; opt := "--check" |}).
  set (verbose := {| action := Some "count"; type := None;
                     env_name := None; opt := "-v" |}).
  pose proof (unsupported_option_warns h Fixtures.keep_path options
                "check" check "store_true" eq_refl) as [C1 _].
  pose proof (unsupported_option_warns h Fixtures.keep_path options
                "verbose" verbose "count" eq_refl) as [_ [V2 V3]].
  split; [|split].
  - apply (proj1 (C1 "GYP_CHECK" (or_introl (conj eq_refl eq_refl)) eq_refl)).
    reflexivity.
  - apply V2; discriminate.
  - rewrite (V3 [RegenerationUnimplemented (Some "count") "-v"] []
               ["--ignore-environment"] []).
    + reflexivity.
    + apply V2; discriminate.
Defined.

(** ** The tool search path of [gyp_main] *)

(** C4, at the input where the code departs from it.  Without
    [ANDROID_NDK_ROOT] in the environment, or with an empty one,
    [gyp_main] raises its configuration error whether [--android] was
    given or not. *)
Theorem gyp_main_requires_ndk_root (h : Host) (android : bool)
  (build : Triple.t) :
  nonempty (os_environ h "ANDROID_NDK_ROOT") = None ->
  gyp_main_paths h android build
  = Raise (GypError "ANDROID_NDK_ROOT environment variable is not defined").
Proof.
  intros Hnone. unfold gyp_main_paths. rewrite Hnone. reflexivity.
Qed.

Lemma gyp_main_requires_ndk_root_witness :
  gyp_main_paths (Fixtures.linux [("PATH", "/usr/bin:/bin")] [] []) false
    (Triple.Make "x86_64" "linux" "gnu")
  = Raise (GypError "ANDROID_NDK_ROOT environment variable is not defined").
Proof.
  apply (gyp_main_requires_ndk_root
           (Fixtures.linux [("PATH", "/usr/bin:/bin")] [] []) false
           (Triple.Make "x86_64" "linux" "gnu")).
  reflexivity.
Defined.

(** With the variable set, the same call without [--android] goes on to
    split [PATH]. *)
Example gyp_main_paths_with_ndk_root :
  gyp_main_paths
    (Fixtures.linux [("PATH", "/usr/bin:/bin"); ("ANDROID_NDK_ROOT", "/ndk")]
       [] [])
    false (Triple.Make "x86_64" "linux" "gnu")
  = Ok ["/usr/bin"; "/bin"].
Proof. reflexivity. Qed.

(* ================================================================== *)
(** * Part III: properties of the rest of the program                 *)
(* ================================================================== *)

(** ** Characters and strips *)

Lemma all_chars_weaken (p q : ascii -> bool) (s : string) :
  (forall c, p c = true -> q c = true) ->
  all_chars p s = true -> all_chars q s = true.
Proof.
  intros Hpq. induction s as [|c r IH]; [reflexivity|].
  cbn [all_chars]. intros H.
  apply andb_true_iff in H. destruct H as [Hc Hr].
  rewrite (Hpq c Hc), (IH Hr). reflexivity.
Qed.

Lemma all_chars_count (p : ascii -> bool) (sep : ascii) (s : string) :
  p sep = false -> all_chars p s = true -> Py.count sep s = 0.
Proof.
  intros Hsep. induction s as [|c r IH]; [reflexivity|].
  cbn [all_chars Py.count]. intros H.
  apply andb_true_iff in H. destruct H as [Hc Hr].
  destruct (Ascii.eqb c sep) eqn:Heq.
  - apply Ascii.eqb_eq in Heq. subst c. rewrite Hsep in Hc. discriminate.
  - rewrite (IH Hr). reflexivity.
Qed.

Lemma rstrip_no_space (s : string) :
  all_chars not_space s = true -> Py.rstrip s = s.
Proof.
  induction s as [|c r IH]; [reflexivity|].
  cbn [all_chars Py.rstrip]. intros H.
  apply andb_true_iff in H. destruct H as [Hc Hr].
  rewrite (IH Hr). unfold not_space in Hc.
  destruct r; [|reflexivity].
  destruct (Py.is_space c); [discriminate|reflexivity].
Qed.

Lemma strip_no_space (s : string) :
  all_chars not_space s = true -> Py.strip s = s.
Proof.
  intros H. unfold Py.strip.
  assert (Hl : Py.lstrip s = s).
  { destruct s as [|c r]; [reflexivity|].
    cbn [all_chars] in H. apply andb_true_iff in H. destruct H as [Hc _].
    unfold not_space in Hc. cbn [Py.lstrip].
    destruct (Py.is_space c); [discriminate|reflexivity]. }
  rewrite Hl. apply rstrip_no_space. exact H.
Qed.

Lemma digit_not_space (c : ascii) :
  Py.is_digit c = true -> not_space c = true.
Proof.
  unfold Py.is_digit, not_space, Py.is_space.
  destruct (nat_of_ascii c) as [|n] eqn:Hn; [discriminate|].
  intros H. apply andb_true_iff in H. destruct H as [H1 H2].
  apply Nat.leb_le in H1, H2.
  apply negb_true_iff. apply orb_false_iff. split.
  - apply Nat.eqb_neq. lia.
  - apply andb_false_iff. right. apply Nat.leb_gt. lia.
Qed.

Lemma digit_not_sign (c : ascii) :
  Py.is_digit c = true -> c <> "+"%char /\ c <> "-"%char.
Proof.
  intros H. split; intros ->; discriminate H.
Qed.

(** [int] of a text of digits: no strip, no sign. *)
Lemma int_digits (s : string) :
  all_chars Py.is_digit s = true -> Py.int s = Py.unsigned_int s.
Proof.
  intros H. unfold Py.int.
  rewrite strip_no_space
    by (apply (all_chars_weaken Py.is_digit); [apply digit_not_space|exact H]).
  destruct s as [|c r]; [reflexivity|].
  cbn [all_chars] in H. apply andb_true_iff in H. destruct H as [Hc _].
  destruct (digit_not_sign c Hc) as [Hp Hm].
  destruct c as [[] [] [] [] [] [] [] []]; try reflexivity;
    try (exfalso; apply Hp; reflexivity);
    try (exfalso; apply Hm; reflexivity).
Qed.

Lemma digits_value_step (c : ascii) (acc : Z) (r : string) :
  Py.is_digit c = true ->
  Py.digits_value acc (String c r)
  = Py.digits_value (10 * acc + Z.of_nat (nat_of_ascii c - 48)) r.
Proof. intros H. cbn [Py.digits_value]. rewrite H. reflexivity. Qed.

Lemma digits_value_nonneg (s : string) (acc z : Z) :
  (0 <= acc)%Z -> Py.digits_value acc s = Some z -> (0 <= z)%Z.
Proof.
  revert acc. induction s as [|c r IH]; intros acc Hacc H.
  - injection H as <-. exact Hacc.
  - cbn [Py.digits_value] in H. destruct (Py.is_digit c); [|discriminate].
    apply (IH (10 * acc + Z.of_nat (nat_of_ascii c - 48))%Z); [lia|exact H].
Qed.

Lemma digits_value_all (s : string) (acc : Z) :
  all_chars Py.is_digit s = true -> exists z, Py.digits_value acc s = Some z.
Proof.
  revert acc. induction s as [|c r IH]; intros acc H.
  - exists acc. reflexivity.
  - cbn [all_chars] in H. apply andb_true_iff in H. destruct H as [Hc Hr].
    cbn [Py.digits_value]. rewrite Hc. apply IH. exact Hr.
Qed.

(** ** Printing a version *)

Lemma digits_value_acc (d : Decimal.uint) (acc : positive) :
  Py.digits_value (Z.pos acc) (NilEmpty.string_of_uint d)
  = Some (Z.pos (Pos.of_uint_acc d acc)).
Proof.
  revert acc. induction d; intros acc;
    cbn [NilEmpty.string_of_uint Pos.of_uint_acc];
    [reflexivity|..];
    rewrite digits_value_step by reflexivity;
    rewrite <- IHd; f_equal;
    match goal with
    | |- (_ + Z.of_nat ?n)%Z = _ =>
        let k := eval vm_compute in (Z.of_nat n) in
        change (Z.of_nat n) with k
    end; lia.
Qed.

Lemma digits_value_uint (d : Decimal.uint) :
  Py.digits_value 0 (NilEmpty.string_of_uint d)
  = Some (Z.of_N (Pos.of_uint d)).
Proof.
  induction d; cbn [NilEmpty.string_of_uint Pos.of_uint];
    [reflexivity|..];
    rewrite digits_value_step by reflexivity;
    match goal with
    | |- context [Z.of_nat ?n] =>
        let k := eval vm_compute in (Z.of_nat n) in
        change (Z.of_nat n) with k
    end; cbn [Z.mul Z.add]; try exact IHd; apply digits_value_acc.
Qed.

Lemma string_of_uint_digits (d : Decimal.uint) :
  all_chars Py.is_digit (NilEmpty.string_of_uint d) = true.
Proof.
  induction d; cbn [NilEmpty.string_of_uint all_chars];
    [reflexivity|..]; rewrite IHd; reflexivity.
Qed.

Lemma to_uint_not_nil (p : positive) : Pos.to_uint p <> Decimal.Nil.
Proof.
  intros H. pose proof (DecimalPos.Unsigned.of_to p) as Hp.
  rewrite H in Hp. discriminate Hp.
Qed.

Lemma unsigned_int_pos (p : positive) :
  Py.unsigned_int (NilEmpty.string_of_uint (Pos.to_uint p)) = Ok (Z.pos p).
Proof.
  unfold Py.unsigned_int. rewrite digits_value_uint.
  rewrite DecimalPos.Unsigned.of_to.
  destruct (NilEmpty.string_of_uint (Pos.to_uint p)) eqn:Hs; [|reflexivity].
  exfalso. apply (to_uint_not_nil p).
  destruct (Pos.to_uint p); try reflexivity; discriminate Hs.
Qed.

Lemma nilzero_pos (p : positive) :
  NilZero.string_of_uint (Pos.to_uint p)
  = NilEmpty.string_of_uint (Pos.to_uint p).
Proof.
  pose proof (to_uint_not_nil p) as H.
  destruct (Pos.to_uint p); [contradiction|..]; reflexivity.
Qed.

(** Printing an integer and reading it back gives the integer. *)
Lemma int_str_int (z : Z) : Py.int (str_int z) = Ok z.
Proof.
  destruct z as [|p|p].
  - reflexivity.
  - unfold str_int. cbn [Z.to_int NilZero.string_of_int].
    rewrite nilzero_pos.
    rewrite int_digits by apply string_of_uint_digits.
    apply unsigned_int_pos.
  - unfold str_int. cbn [Z.to_int NilZero.string_of_int].
    rewrite nilzero_pos. unfold Py.int.
    rewrite strip_no_space.
    + rewrite unsigned_int_pos. reflexivity.
    + cbn [all_chars]. apply andb_true_iff. split; [reflexivity|].
      apply (all_chars_weaken Py.is_digit); [apply digit_not_space|].
      apply string_of_uint_digits.
Qed.

Lemma str_int_chars (z : Z) : all_chars digit_or_minus (str_int z) = true.
Proof.
  assert (Hd : forall d, all_chars digit_or_minus
                           (NilEmpty.string_of_uint d) = true).
  { intros d. apply (all_chars_weaken Py.is_digit);
      [|apply string_of_uint_digits].
    intros c Hc. unfold digit_or_minus. rewrite Hc. reflexivity. }
  destruct z as [|p|p]; [reflexivity|..];
    unfold str_int; cbn [Z.to_int NilZero.string_of_int];
    rewrite nilzero_pos; [apply Hd|].
  cbn [all_chars]. rewrite Hd. reflexivity.
Qed.

Lemma split_no_sep (sep : ascii) (s : string) :
  Py.count sep s = 0 -> Py.split sep s = [s].
Proof.
  induction s as [|c r IH]; [reflexivity|].
  cbn [Py.count Py.split]. destruct (Ascii.eqb c sep); [discriminate|].
  intros H. rewrite (IH H). reflexivity.
Qed.

Lemma split_cut (sep : ascii) (a r : string) :
  Py.count sep a = 0 ->
  Py.split sep (a ++ String sep r) = a :: Py.split sep r.
Proof.
  induction a as [|c a IH]; intros Hc.
  - cbn [append Py.split]. rewrite Ascii.eqb_refl. reflexivity.
  - cbn [Py.count] in Hc. cbn [append Py.split].
    destruct (Ascii.eqb c sep); [discriminate|].
    rewrite (IH Hc). reflexivity.
Qed.

(** Splitting what [join] made gives the parts back, when there is a part
    and no part holds the separator. *)
Lemma split_join (sep : ascii) (parts : list string) :
  parts <> [] ->
  Forall (fun s => Py.count sep s = 0) parts ->
  Py.split sep (Py.join (String sep EmptyString) parts) = parts.
Proof.
  induction parts as [|a parts IH]; intros Hne Hall; [contradiction|].
  inversion Hall as [|a' parts' Ha Hparts]; subst.
  destruct parts as [|b parts].
  - cbn [Py.join]. apply split_no_sep. exact Ha.
  - change (Py.join (String sep EmptyString) (a :: b :: parts))
      with (a ++ String sep
                   (Py.join (String sep EmptyString) (b :: parts)))%string.
    rewrite split_cut by exact Ha.
    rewrite IH; [reflexivity|discriminate|exact Hparts].
Qed.

Lemma mapM_int_str (v : list Z) : mapM Py.int (map str_int v) = Ok v.
Proof.
  induction v as [|z v IH]; [reflexivity|].
  cbn [map mapM]. rewrite int_str_int. cbn [bind]. rewrite IH. reflexivity.
Qed.

(** X1. A version that is not empty, printed by [Version.__str__] and
    read as the identifier reads a version text, is the same version;
    this holds for negative components too.  The empty version prints as
    the empty text, which does not read back: it raises [ValueError]. *)
Theorem version_round_trip (v : Version) :
  (v <> [] -> Version_of_text (Version_str v) = Ok v)
  /\ Version_of_text (Version_str []) = Raise ValueError.
Proof.
  split; [|reflexivity].
  intros Hne. unfold Version_of_text, Version_str.
  rewrite split_join.
  - apply mapM_int_str.
  - destruct v; [contradiction|discriminate].
  - apply Forall_forall. intros s Hin.
    apply in_map_iff in Hin. destruct Hin as [z [<- _]].
    apply (all_chars_count digit_or_minus); [reflexivity|apply str_int_chars].
Qed.

Lemma version_round_trip_witness :
  Version_str [4; 8; 1]%Z = "4.8.1"
  /\ Version_of_text (Version_str [4; 8; 1]%Z) = Ok [4; 8; 1]%Z.
Proof.
  split; [reflexivity|].
  apply (proj1 (version_round_trip [4; 8; 1]%Z)). discriminate.
Defined.

(** ** Platform triple *)

Lemma parse_cut (a o e : string) :
  Py.count "-" a = 0 -> Py.count "-" o = 0 ->
  Triple.parse (a ++ "-" ++ o ++ "-" ++ e) = Ok (Triple.Make a o e).
Proof.
  intros Ha Ho. unfold Triple.parse.
  change (a ++ "-" ++ o ++ "-" ++ e)%string
    with (a ++ String "-" (o ++ String "-" e))%string.
  rewrite split_max_cut by exact Ha.
  rewrite split_max_cut by exact Ho.
  destruct e; reflexivity.
Qed.

Lemma parse_Ok (s : string) (t : Triple.t) :
  Triple.parse s = Ok t ->
  Triple.str t = s
  /\ Py.count "-" (Triple.arch t) = 0 /\ Py.count "-" (Triple.os t) = 0.
Proof.
  intros H.
  assert (Hge : 2 <= Py.count "-" s).
  { unfold Triple.parse in H.
    pose proof (split_max_length "-" s 2) as Hlen.
    destruct (Py.split_max "-" s 2) as [|x [|y [|z [|w l]]]];
      try discriminate H.
    cbn [length] in Hlen. lia. }
  destruct (first_cut "-" s ltac:(lia)) as [a [r [-> [Ha Hr]]]].
  destruct (first_cut "-" r ltac:(lia)) as [o [e [-> [Ho _]]]].
  change (a ++ String "-" (o ++ String "-" e))%string
    with (a ++ "-" ++ o ++ "-" ++ e)%string in H.
  rewrite (parse_cut a o e Ha Ho) in H. injection H as <-.
  repeat split; assumption.
Qed.

(** X2. Printing and parsing a triple.  A text that parses prints back as
    itself, and the arch and os parsed hold no dash.  A triple printed
    always parses, and it parses to itself exactly when its arch and its
    os hold no dash: the dashes of an arch or an os move the cuts. *)
Theorem triple_round_trip (t : Triple.t) :
  (forall s : string, Triple.parse s = Ok t -> Triple.str t = s)
  /\ (exists t', Triple.parse (Triple.str t) = Ok t')
  /\ (Triple.parse (Triple.str t) = Ok t
      <-> Py.count "-" (Triple.arch t) = 0
          /\ Py.count "-" (Triple.os t) = 0).
Proof.
  split; [|split].
  - intros s H. apply (parse_Ok s t H).
  - destruct t as [a o e].
    assert (Hge : 2 <= Py.count "-" (Triple.str (Triple.Make a o e))).
    { unfold Triple.str. cbn [Triple.arch Triple.os Triple.env].
      change (a ++ "-" ++ o ++ "-" ++ e)%string
        with (a ++ String "-" (o ++ String "-" e))%string.
      clear. induction a as [|c a IH].
      - cbn [append Py.count]. rewrite Ascii.eqb_refl.
        induction o as [|c o IH].
        + cbn [append Py.count]. rewrite Ascii.eqb_refl. lia.
        + cbn [append Py.count]. lia.
      - cbn [append Py.count]. lia. }
    destruct (first_cut "-" (Triple.str (Triple.Make a o e)) ltac:(lia))
      as [a' [r [Heq [Ha Hr]]]].
    destruct (first_cut "-" r ltac:(lia)) as [o' [e' [-> [Ho _]]]].
    exists (Triple.Make a' o' e'). rewrite Heq.
    apply (parse_cut a' o' e' Ha Ho).
  - split.
    + intros H. apply (parse_Ok _ _ H).
    + intros [Ha Ho]. destruct t as [a o e].
      apply (parse_cut a o e Ha Ho).
Qed.

Example triple_round_trip_dash :
  Triple.parse (Triple.str (Triple.Make "x86-64" "linux" "gnu"))
  = Ok (Triple.Make "x86" "64" "linux-gnu").
Proof. reflexivity. Qed.

(** X3. The two normalizations change the arch only, and the one applied
    last decides: [gyp] after [gnu] is [gyp], [gnu] after [gyp] is [gnu].
    After [gnu] the arch is neither x64 nor of the form i?86; after [gyp]
    it is neither x86_64 nor of the form i?86. *)
Theorem normalizations_compose (t : Triple.t) :
  Triple.gyp (Triple.gnu t) = Triple.gyp t
  /\ Triple.gnu (Triple.gyp t) = Triple.gnu t
  /\ Triple.os (Triple.gnu t) = Triple.os t
  /\ Triple.env (Triple.gnu t) = Triple.env t
  /\ Triple.os (Triple.gyp t) = Triple.os t
  /\ Triple.env (Triple.gyp t) = Triple.env t
  /\ Triple.arch (Triple.gnu t) <> "x64"
  /\ Triple.match_i_d_86 (Triple.arch (Triple.gnu t)) = false
  /\ Triple.arch (Triple.gyp t) <> "x86_64"
  /\ Triple.match_i_d_86 (Triple.arch (Triple.gyp t)) = false.
Proof.
  destruct t as [a o e]. unfold Triple.gnu, Triple.gyp.
  destruct (Triple.match_i_d_86 a) eqn:Hm.
  - repeat split; discriminate.
  - destruct (String.eqb a "x64") eqn:H64;
      destruct (String.eqb a "x86_64") eqn:H86;
      cbn [Triple.arch Triple.os Triple.env].
    + apply String.eqb_eq in H64, H86. subst a. discriminate H86.
    + apply String.eqb_eq in H64. subst a. repeat split; discriminate.
    + apply String.eqb_eq in H86. subst a. repeat split; discriminate.
    + rewrite Hm, H64, H86.
      apply String.eqb_neq in H64, H86.
      repeat split; assumption.
Qed.

(** ** Name-value lists *)

Lemma dict_get_filter (d : Dict) (key k : string) :
  String.eqb k key = false ->
  dict_get (filter (fun kv => negb (String.eqb (fst kv) k)) d) key
  = dict_get d key.
Proof.
  intros Hne. induction d as [|[k' v'] d IH]; [reflexivity|].
  cbn [filter fst dict_get].
  destruct (String.eqb k' k) eqn:Hk; cbn [negb dict_get].
  - apply String.eqb_eq in Hk. subst k'. rewrite Hne. exact IH.
  - rewrite IH. reflexivity.
Qed.

(** A key reads what was written to it last; the other keys are as they
    were. *)
Lemma dict_get_set (d : Dict) (k key : string) (v : DictValue) :
  dict_get (dict_set d k v) key
  = if String.eqb k key then Some v else dict_get d key.
Proof.
  unfold dict_set. cbn [dict_get].
  destruct (String.eqb k key) eqn:Hk; [reflexivity|].
  apply dict_get_filter. exact Hk.
Qed.

Lemma name_value_item_set (item : string) :
  exists k v, forall d : Dict, name_value_item d item = dict_set d k v.
Proof.
  unfold name_value_item.
  pose proof (split_max_length "=" item 1) as Hlen.
  destruct (Py.split_max "=" item 1) as [|name [|value [|x l]]].
  - discriminate Hlen.
  - exists name, DTrue. reflexivity.
  - eexists name, _. reflexivity.
  - exists name, DTrue. reflexivity.
Qed.

Lemma fold_name_value_get (items : list string) (d0 : Dict) (key : string) :
  dict_get (fold_left name_value_item items d0) key
  = match dict_get (fold_left name_value_item items []) key with
    | Some v => Some v
    | None => dict_get d0 key
    end.
Proof.
  revert d0. induction items as [|item items IH]; intros d0; [reflexivity|].
  cbn [fold_left].
  destruct (name_value_item_set item) as [k [v Hset]].
  rewrite (Hset d0), (Hset []).
  rewrite (IH (dict_set d0 k v)), (IH (dict_set [] k v)).
  destruct (dict_get (fold_left name_value_item items []) key);
    [reflexivity|].
  rewrite !dict_get_set. cbn [dict_get].
  destruct (String.eqb k key); reflexivity.
Qed.

Lemma NameValueListToDict_app (a b : list string) (key : string) :
  dict_get (NameValueListToDict (a ++ b)) key
  = match dict_get (NameValueListToDict b) key with
    | Some v => Some v
    | None => dict_get (NameValueListToDict a) key
    end.
Proof.
  unfold NameValueListToDict. rewrite fold_left_app.
  apply fold_name_value_get.
Qed.

Lemma split_max_no_sep (sep : ascii) (s : string) (n : nat) :
  Py.count sep s = 0 -> Py.split_max sep s n = [s].
Proof.
  revert n; induction s as [|c r IH]; intros n Hc; [reflexivity|].
  cbn [Py.count] in Hc. destruct n as [|n]; [reflexivity|].
  cbn [Py.split_max].
  destruct (Ascii.eqb c sep); [discriminate|].
  rewrite IH by exact Hc. reflexivity.
Qed.

Lemma split_max_eq_cut (name value : string) :
  Py.count "=" name = 0 ->
  Py.split_max "=" (name ++ "=" ++ value) 1 = [name; value].
Proof.
  intros Hn.
  change (name ++ "=" ++ value)%string with (name ++ String "=" value)%string.
  rewrite split_max_cut by exact Hn.
  destruct value; reflexivity.
Qed.

(** X4. In the dict of [NameValueListToDict] the items said later win: a
    key defined in the second of two lists reads as there, any other key
    as in the first.  An item NAME=VALUE is cut at its first equals sign
    only; it binds NAME to the integer VALUE reads as, or else to the
    text VALUE.  An item without an equals sign binds itself to [True]. *)
Theorem NameValueListToDict_last_wins (a : list string)
  (name value : string) :
  (forall b key,
      dict_get (NameValueListToDict (a ++ b)) key
      = match dict_get (NameValueListToDict b) key with
        | Some v => Some v
        | None => dict_get (NameValueListToDict a) key
        end)
  /\ (Py.count "=" name = 0 ->
      dict_get (NameValueListToDict (a ++ [(name ++ "=" ++ value)%string]))
        name
      = Some match Py.int value with
             | Ok z => DInt z
             | Raise _ => DStr value
             end
      /\ dict_get (NameValueListToDict (a ++ [name])) name = Some DTrue).
Proof.
  split; [intros b key; apply NameValueListToDict_app|].
  intros Hn. split.
  - rewrite NameValueListToDict_app.
    unfold NameValueListToDict at 1. cbn [fold_left].
    unfold name_value_item. rewrite (split_max_eq_cut name value Hn).
    rewrite dict_get_set, String.eqb_refl. reflexivity.
  - rewrite NameValueListToDict_app.
    unfold NameValueListToDict at 1. cbn [fold_left].
    unfold name_value_item. rewrite (split_max_no_sep "=" name 1 Hn).
    rewrite dict_get_set, String.eqb_refl. reflexivity.
Qed.

Lemma NameValueListToDict_last_wins_witness :
  dict_get (NameValueListToDict ["OS=linux"; "OS=a=b"]) "OS"
  = Some (DStr "a=b")
  /\ dict_get (NameValueListToDict ["OS=linux"; "OS"]) "OS" = Some DTrue.
Proof.
  apply (proj2 (NameValueListToDict_last_wins ["OS=linux"] "OS" "a=b")).
  reflexivity.
Defined.

(** X5. The defaults of [gyp_main]: a variable defined by [-D] on the
    command line reads as defined there; one that is not, and is defined
    in [GYP_DEFINES], reads as defined there; any other reads as the
    host defines give it. *)
Theorem gyp_main_defines_precedence (h : Host) (options : Options)
  (host_gyp build_gyp : Triple.t) (env_defines cmd_defines : list string) :
  use_environment options = true ->
  ShlexEnv h "GYP_DEFINES" = Ok env_defines ->
  getattr options "defines" = VList cmd_defines ->
  exists d,
    gyp_main_default_variables h options host_gyp build_gyp = Ok d
    /\ forall key,
         dict_get d key
         = match dict_get (NameValueListToDict cmd_defines) key with
           | Some v => Some v
           | None =>
               match dict_get (NameValueListToDict env_defines) key with
               | Some v => Some v
               | None =>
                   dict_get
                     (NameValueListToDict
                        (gyp_main_host_defines options host_gyp build_gyp))
                     key
               end
           end.
Proof.
  intros Huse Henv Hcmd.
  exists (NameValueListToDict
            ((gyp_main_host_defines options host_gyp build_gyp
              ++ env_defines) ++ cmd_defines)).
  split.
  - unfold gyp_main_default_variables, gyp_main_defines.
    rewrite Huse, Henv, Hcmd. cbn [bind].
    destruct cmd_defines as [|c cs]; cbn [truthy py_iter bind].
    + rewrite app_nil_r. reflexivity.
    + reflexivity.
  - intros key. rewrite !NameValueListToDict_app. reflexivity.
Qed.

Lemma gyp_main_defines_precedence_witness :
  let h := Fixtures.linux [("GYP_DEFINES", "OS=env component=shared")] [] [] in
  let options :=
    {| use_environment := true; depth := VStr ".";
       getattr := fun n => if String.eqb n "defines"
                           then VList ["OS=mine"] else VNone;
       regeneration_metadata := [] |} in
  let t := Triple.Make "x64" "linux" "gnu" in
  exists d,
    gyp_main_default_variables h options t t = Ok d
    /\ dict_get d "OS" = Some (DStr "mine")
    /\ dict_get d "component" = Some (DStr "shared")
    /\ dict_get d "arm_version" = Some (DInt 7).
Proof.
  cbv zeta.
  destruct (gyp_main_defines_precedence
              (Fixtures.linux [("GYP_DEFINES", "OS=env component=shared")]
                 [] [])
              {| use_environment := true; depth := VStr ".";
                 getattr := fun n => if String.eqb n "defines"
                                     then VList ["OS=mine"] else VNone;
                 regeneration_metadata := [] |}
              (Triple.Make "x64" "linux" "gnu")
              (Triple.Make "x64" "linux" "gnu")
              ["OS=env"; "component=shared"] ["OS=mine"]
              eq_refl eq_refl eq_refl) as [d [Hd Hget]].
  exists d. split; [exact Hd|].
  repeat split; rewrite Hget; reflexivity.
Defined.

(** ** Flag regeneration, as a whole *)

Lemma prefix_app (a b : string) : String.prefix a (a ++ b) = true.
Proof.
  induction a as [|c a IH]; [destruct b; reflexivity|].
  cbn [append String.prefix].
  destruct (ascii_dec c c) as [_|Hne]; [exact IH|contradiction].
Qed.

Lemma prefix_refl (a : string) : String.prefix a a = true.
Proof.
  induction a as [|c a IH]; [reflexivity|].
  cbn [String.prefix].
  destruct (ascii_dec c c) as [_|Hne]; [exact IH|contradiction].
Qed.

Lemma app_inv_head_str (a b c : string) :
  (a ++ b)%string = (a ++ c)%string -> b = c.
Proof.
  induction a as [|x a IH]; [auto|].
  cbn [append]. intros H. injection H as H. apply IH. exact H.
Qed.

Lemma format_str_injective (opt a b : string) :
  format_str opt a = format_str opt b -> a = b.
Proof.
  unfold format_str. destruct (Py.startswith opt "--"); intros H.
  - apply app_inv_head_str in H. injection H as H. exact H.
  - apply app_inv_head_str in H. exact H.
Qed.

Section WholeFacts.

Variable h : Host.
Variable FixIfRelativePath : string -> PyVal -> string.

Lemma FormatOpt_str (opt s : string) :
  FormatOpt h opt (VStr s) = Ok (format_str opt s).
Proof.
  unfold FormatOpt, format_str.
  destruct (Py.startswith opt "--"); reflexivity.
Qed.

Lemma FormatOpt_prefix (opt flag : string) (v : PyVal) :
  FormatOpt h opt v = Ok flag -> Py.startswith flag opt = true.
Proof.
  unfold FormatOpt, Py.startswith.
  destruct (String.prefix "--" opt).
  - intros H. injection H as <-. apply prefix_app.
  - destruct v; try discriminate. intros H. injection H as <-.
    apply prefix_app.
Qed.

Lemma format_value_prefix (opt flag : string)
  (predicate : PyVal -> Res PyVal) (v : PyVal) :
  format_value h opt predicate v = Ok flag -> Py.startswith flag opt = true.
Proof.
  unfold format_value. intros H.
  apply bind_Ok in H. destruct H as [v' [_ H]].
  apply (FormatOpt_prefix _ _ _ H).
Qed.

Lemma list_remove_incl (x : string) (l : list string) (y : string) :
  In y (list_remove x l) -> In y l.
Proof.
  induction l as [|z l IH]; [auto|].
  cbn [list_remove]. destruct (String.eqb z x).
  - intros H. right. exact H.
  - intros [H|H]; [left; exact H|right; apply IH; exact H].
Qed.

Lemma move_to_end_In (l : list string) (v y : string) :
  In y (move_to_end l v) -> In y l \/ y = v.
Proof.
  unfold move_to_end. intros H. apply in_app_or in H.
  destruct H as [H|[H|[]]]; [left|right; symmetry; exact H].
  destruct (list_in v l); [apply (list_remove_incl v l y H)|exact H].
Qed.

Lemma append_env_flags_prefix (flag : string)
  (predicate : PyVal -> Res PyVal) (env_values acc flags : list string) :
  Forall (fun f => Py.startswith f flag = true) acc ->
  append_env_flags h flag predicate acc env_values = Ok flags ->
  Forall (fun f => Py.startswith f flag = true) flags.
Proof.
  revert acc. induction env_values as [|x xs IH]; intros acc Hacc H.
  - injection H as <-. exact Hacc.
  - cbn [append_env_flags] in H.
    apply bind_Ok in H. destruct H as [v [Hv H]].
    apply (IH (move_to_end acc v)); [|exact H].
    apply Forall_forall. intros y Hy.
    apply move_to_end_In in Hy. destruct Hy as [Hy| ->].
    + apply (proj1 (Forall_forall _ _) Hacc y Hy).
    + apply (format_value_prefix _ _ _ _ Hv).
Qed.

Lemma append_value_flags_prefix (flag : string)
  (predicate : PyVal -> Res PyVal) (values acc flags : list string) :
  Forall (fun f => Py.startswith f flag = true) acc ->
  append_value_flags h flag predicate acc values = Ok flags ->
  Forall (fun f => Py.startswith f flag = true) flags.
Proof.
  revert acc. induction values as [|x xs IH]; intros acc Hacc H.
  - injection H as <-. exact Hacc.
  - cbn [append_value_flags] in H.
    apply bind_Ok in H. destruct H as [v [Hv H]].
    apply (IH (acc ++ [v])); [|exact H].
    apply Forall_app. split; [exact Hacc|].
    constructor; [|constructor].
    apply (format_value_prefix _ _ _ _ Hv).
Qed.

Lemma RegenerateAppendFlag_prefix (flag : string) (values : PyVal)
  (predicate : PyVal -> Res PyVal) (env_name : option string)
  (options : Options) (flags : list string) :
  RegenerateAppendFlag h flag values predicate env_name options = Ok flags ->
  Forall (fun f => Py.startswith f flag = true) flags.
Proof.
  unfold RegenerateAppendFlag. intros H.
  apply bind_Ok in H. destruct H as [flags0 [H0 H]].
  assert (Hf0 : Forall (fun f => Py.startswith f flag = true) flags0).
  { destruct (use_environment options);
      [destruct (nonempty env_name)|].
    - apply bind_Ok in H0. destruct H0 as [env_values [_ H0]].
      apply (append_env_flags_prefix _ _ _ [] _ (Forall_nil _) H0).
    - injection H0 as <-. constructor.
    - injection H0 as <-. constructor. }
  destruct (truthy values).
  - apply bind_Ok in H. destruct H as [items [_ H]].
    apply (append_value_flags_prefix _ _ _ _ _ Hf0 H).
  - injection H as <-. exact Hf0.
Qed.

(** The flags one option adds all begin with the flag of the option. *)
Lemma regenerate_option_prefix (options : Options) (name : string)
  (metadata : Metadata) (flags : list string) (ws : list Warning) :
  regenerate_option h FixIfRelativePath options name metadata
  = Ok (flags, ws) ->
  Forall (fun f => Py.startswith f (opt metadata) = true) flags.
Proof.
  unfold regenerate_option. intros H.
  destruct (is_action (action metadata) "append").
  { apply bind_Ok in H. destruct H as [fs [Hfs H]].
    injection H as <- _. apply (RegenerateAppendFlag_prefix _ _ _ _ _ _ Hfs). }
  destruct (is_action (action metadata) "store"
            || match action metadata with None => true | _ => false end).
  { destruct (truthy (getattr options name)).
    - apply bind_Ok in H. destruct H as [f [Hf H]].
      injection H as <- _. constructor; [|constructor].
      apply (format_value_prefix _ _ _ _ Hf).
    - destruct (use_environment options);
        [destruct (nonempty (env_name metadata)) as [e|];
         [destruct (nonempty (os_environ h e))|]|].
      + apply bind_Ok in H. destruct H as [f [Hf H]].
        injection H as <- _. constructor; [|constructor].
        apply (format_value_prefix _ _ _ _ Hf).
      + injection H as <- _. constructor.
      + injection H as <- _. constructor.
      + injection H as <- _. constructor. }
  destruct (is_action (action metadata) "store_true"
            || is_action (action metadata) "store_false").
  { destruct ((is_action (action metadata) "store_true"
               && truthy (getattr options name))
              || (is_action (action metadata) "store_false"
                  && negb (truthy (getattr options name)))).
    - injection H as <- _. constructor; [|constructor].
      apply prefix_refl.
    - destruct (use_environment options);
        [destruct (nonempty (env_name metadata));
         [destruct (action metadata)|]|];
        injection H as <- _; constructor. }
  injection H as <- _. constructor.
Qed.

Lemma regenerate_loop_mapM (options : Options)
  (table : list (string * Metadata)) (flags : list string)
  (stderr : list Warning) :
  regenerate_loop h FixIfRelativePath options table flags stderr
  = (rs <- mapM (fun entry =>
                   regenerate_option h FixIfRelativePath options
                     (fst entry) (snd entry)) table ;;
     Ok (flags ++ concat (map fst rs), stderr ++ concat (map snd rs))).
Proof.
  revert flags stderr. induction table as [|[name metadata] table IH];
    intros flags stderr.
  - cbn. rewrite !app_nil_r. reflexivity.
  - cbn [regenerate_loop mapM fst snd].
    destruct (regenerate_option h FixIfRelativePath options name metadata)
      as [[fs ws]|e]; [|reflexivity].
    cbn [bind]. rewrite IH.
    destruct (mapM _ table) as [rs|e]; [|reflexivity].
    cbn [bind map concat fst snd]. rewrite !app_assoc. reflexivity.
Qed.

Lemma mapM_Ok_In {A B : Type} (f : A -> Res B) (l : list A) (rs : list B)
  (r : B) :
  mapM f l = Ok rs -> In r rs -> exists x, In x l /\ f x = Ok r.
Proof.
  revert rs. induction l as [|x l IH]; intros rs H Hin.
  - injection H as <-. destruct Hin.
  - cbn [mapM] in H. apply bind_Ok in H. destruct H as [y [Hy H]].
    apply bind_Ok in H. destruct H as [ys [Hys H]].
    injection H as <-. destruct Hin as [<-|Hin].
    + exists x. split; [left; reflexivity|exact Hy].
    + destruct (IH ys Hys Hin) as [x' [Hx' Hf]].
      exists x'. split; [right; exact Hx'|exact Hf].
Qed.

End WholeFacts.

(** X6. What [RegenerateFlags] returns begins with --ignore-environment,
    and every flag after it begins with the flag of an entry of the
    table: an option that is not in the table, as one declared with
    [regenerate=False] is not, is never regenerated. *)
Theorem RegenerateFlags_flags_of_table (h : Host)
  (FixIfRelativePath : string -> PyVal -> string) (options : Options)
  (flags : list string) (ws : list Warning) :
  RegenerateFlags h FixIfRelativePath options = Ok (flags, ws) ->
  exists rest,
    flags = "--ignore-environment" :: rest
    /\ forall f, In f rest ->
         exists name metadata,
           In (name, metadata) (regeneration_metadata options)
           /\ Py.startswith f (opt metadata) = true.
Proof.
  unfold RegenerateFlags. rewrite regenerate_loop_mapM. intros H.
  apply bind_Ok in H. destruct H as [rs [Hrs H]].
  injection H as <- _.
  exists (concat (map fst rs)). split; [reflexivity|].
  intros f Hf. apply in_concat in Hf. destruct Hf as [fs [Hfs Hf]].
  apply in_map_iff in Hfs. destruct Hfs as [[fs' ws'] [Heq Hr]].
  cbn [fst] in Heq. subst fs'.
  destruct (mapM_Ok_In _ _ _ _ Hrs Hr) as [[name metadata] [Hin Hopt]].
  exists name, metadata. split; [exact Hin|].
  cbn [fst snd] in Hopt.
  apply (proj1 (Forall_forall _ _)
           (regenerate_option_prefix h FixIfRelativePath options name
              metadata fs ws' Hopt) f Hf).
Qed.

Lemma RegenerateFlags_flags_of_table_witness :
  let h := Fixtures.linux [("GYP_DEFINES", "A B")] [] [] in
  let options :=
    {| use_environment := true; depth := VStr ".";
       getattr := fun n => if String.eqb n "defines"
                           then VList ["C"] else VNone;
       regeneration_metadata :=
         [("defines", {| action := Some "append"; type := None;
                         env_name := Some "GYP_DEFINES"; opt := "-D" |})] |} in
  exists rest,
    ["--ignore-environment"; "-DA"; "-DB"; "-DC"]
    = "--ignore-environment" :: rest
    /\ forall f, In f rest ->
         exists name metadata,
           In (name, metadata) (regeneration_metadata options)
           /\ Py.startswith f (opt metadata) = true.
Proof.
  cbv zeta.
  apply (RegenerateFlags_flags_of_table
           (Fixtures.linux [("GYP_DEFINES", "A B")] [] [])
           Fixtures.keep_path
           {| use_environment := true; depth := VStr ".";
              getattr := fun n => if String.eqb n "defines"
                                  then VList ["C"] else VNone;
              regeneration_metadata :=
                [("defines", {| action := Some "append"; type := None;
                                env_name := Some "GYP_DEFINES";
                                opt := "-D" |})] |}
           ["--ignore-environment"; "-DA"; "-DB"; "-DC"] []).
  reflexivity.
Defined.

Section IgnoreEnvironment.

Variables h1 h2 : Host.
Variable FixIfRelativePath : string -> PyVal -> string.
Hypothesis same_curdir : os_curdir h1 = os_curdir h2.
Hypothesis same_repr : forall l, repr_list h1 l = repr_list h2 l.

Lemma FormatOpt_same (opt : string) (v : PyVal) :
  FormatOpt h1 opt v = FormatOpt h2 opt v.
Proof.
  unfold FormatOpt, py_str. destruct v; try reflexivity.
  rewrite same_repr. reflexivity.
Qed.

Lemma value_predicate_same (options : Options) (metadata : Metadata)
  (v : PyVal) :
  value_predicate h1 FixIfRelativePath options metadata v
  = value_predicate h2 FixIfRelativePath options metadata v.
Proof.
  unfold value_predicate, FixPath.
  destruct (is_action (type metadata) "path"); [|reflexivity].
  rewrite same_curdir. reflexivity.
Qed.

Lemma format_value_same (opt : string) (p1 p2 : PyVal -> Res PyVal)
  (v : PyVal) :
  (forall x, p1 x = p2 x) ->
  format_value h1 opt p1 v = format_value h2 opt p2 v.
Proof.
  intros Hp. unfold format_value. rewrite Hp.
  destruct (p2 v); [|reflexivity]. cbn [bind]. apply FormatOpt_same.
Qed.

Lemma append_value_flags_same (flag : string) (p1 p2 : PyVal -> Res PyVal)
  (values acc : list string) :
  (forall x, p1 x = p2 x) ->
  append_value_flags h1 flag p1 acc values
  = append_value_flags h2 flag p2 acc values.
Proof.
  intros Hp. revert acc. induction values as [|x xs IH]; intros acc;
    [reflexivity|].
  cbn [append_value_flags]. rewrite (format_value_same flag p1 p2 _ Hp).
  destruct (format_value h2 flag p2 (VStr x)); [|reflexivity].
  cbn [bind]. apply IH.
Qed.

Lemma regenerate_option_same (options : Options) (name : string)
  (metadata : Metadata) :
  use_environment options = false ->
  regenerate_option h1 FixIfRelativePath options name metadata
  = regenerate_option h2 FixIfRelativePath options name metadata.
Proof.
  intros Huse. unfold regenerate_option, RegenerateAppendFlag.
  rewrite Huse. cbn [bind].
  destruct (is_action (action metadata) "append").
  { destruct (truthy (getattr options name)); [|reflexivity].
    destruct (py_iter (getattr options name)) as [items|e]; [|reflexivity].
    cbn [bind].
    rewrite (append_value_flags_same (opt metadata) _ _ items []
               (value_predicate_same options metadata)).
    reflexivity. }
  destruct (is_action (action metadata) "store"
            || match action metadata with None => true | _ => false end).
  { destruct (truthy (getattr options name)); [|reflexivity].
    rewrite (format_value_same (opt metadata) _ _ (getattr options name)
               (value_predicate_same options metadata)).
    reflexivity. }
  reflexivity.
Qed.

Lemma regenerate_loop_same (options : Options)
  (table : list (string * Metadata)) (flags : list string)
  (stderr : list Warning) :
  use_environment options = false ->
  regenerate_loop h1 FixIfRelativePath options table flags stderr
  = regenerate_loop h2 FixIfRelativePath options table flags stderr.
Proof.
  intros Huse. revert flags stderr.
  induction table as [|[name metadata] table IH]; intros flags stderr;
    [reflexivity|].
  cbn [regenerate_loop].
  rewrite (regenerate_option_same options name metadata Huse).
  destruct (regenerate_option h2 FixIfRelativePath options name metadata)
    as [[fs ws]|e]; [|reflexivity].
  cbn [bind]. apply IH.
Qed.

End IgnoreEnvironment.

(** X7. With [use_environment] off, [RegenerateFlags] reads nothing of
    the environment: on two hosts that agree on the current-directory
    token and on [repr], whatever their environments, it returns the same
    flags and prints the same warnings. *)
Theorem RegenerateFlags_ignores_environment (h1 h2 : Host)
  (FixIfRelativePath : string -> PyVal -> string) (options : Options) :
  use_environment options = false ->
  os_curdir h1 = os_curdir h2 ->
  (forall l, repr_list h1 l = repr_list h2 l) ->
  RegenerateFlags h1 FixIfRelativePath options
  = RegenerateFlags h2 FixIfRelativePath options.
Proof.
  intros Huse Hcur Hrepr. unfold RegenerateFlags.
  apply regenerate_loop_same; assumption.
Qed.

Lemma RegenerateFlags_ignores_environment_witness :
  let options :=
    {| use_environment := false; depth := VStr ".";
       getattr := fun n => if String.eqb n "defines"
                           then VList ["C"] else VNone;
       regeneration_metadata :=
         [("defines", {| action := Some "append"; type := None;
                         env_name := Some "GYP_DEFINES"; opt := "-D" |})] |} in
  RegenerateFlags (Fixtures.linux [("GYP_DEFINES", "A B")] [] [])
    Fixtures.keep_path options
  = RegenerateFlags (Fixtures.linux [] [] []) Fixtures.keep_path options.
Proof.
  cbv zeta.
  apply (RegenerateFlags_ignores_environment
           (Fixtures.linux [("GYP_DEFINES", "A B")] [] [])
           (Fixtures.linux [] [] []) Fixtures.keep_path);
    reflexivity.
Defined.

Lemma list_in_map (f : string -> string) (x : string) (l : list string) :
  (forall a b, f a = f b -> a = b) ->
  list_in (f x) (map f l) = list_in x l.
Proof.
  intros Hinj. induction l as [|y l IH]; [reflexivity|].
  unfold list_in in *. cbn [map existsb]. rewrite IH. f_equal.
  destruct (String.eqb x y) eqn:Hxy.
  - apply String.eqb_eq in Hxy. subst y. apply String.eqb_refl.
  - apply String.eqb_neq. intros Heq. apply Hinj in Heq.
    apply String.eqb_neq in Hxy. contradiction.
Qed.

Lemma last_write_wins_map (f : string -> string) (l : list string) :
  (forall a b, f a = f b -> a = b) ->
  last_write_wins (map f l) = map f (last_write_wins l).
Proof.
  intros Hinj. induction l as [|x l IH]; [reflexivity|].
  cbn [map last_write_wins]. rewrite (list_in_map f x l Hinj).
  destruct (list_in x l); [exact IH|].
  cbn [map]. rewrite IH. reflexivity.
Qed.

Lemma mapM_format_noop (h : Host) (flag : string) (l : list string) :
  mapM (fun x => format_value h flag Noop (VStr x)) l
  = Ok (map (format_str flag) l).
Proof.
  induction l as [|x l IH]; [reflexivity|].
  cbn [mapM map]. unfold format_value at 1, Noop at 1. cbn [bind].
  rewrite FormatOpt_str. cbn [bind]. rewrite IH. reflexivity.
Qed.

(** X8. For an option that is not a path, two tokens of the environment
    variable fall together exactly when they are the same text: the flags
    are those of the tokens, each kept at its last place, then those of
    the explicit values. *)
Theorem RegenerateAppendFlag_by_value (h : Host) (flag name : string)
  (options : Options) (env_values values : list string) :
  use_environment options = true ->
  name <> EmptyString ->
  ShlexEnv h name = Ok env_values ->
  RegenerateAppendFlag h flag (VList values) Noop (Some name) options
  = Ok (map (format_str flag) (last_write_wins env_values)
        ++ map (format_str flag) values).
Proof.
  intros Huse Hname Henv. unfold RegenerateAppendFlag. rewrite Huse.
  destruct name as [|c name]; [contradiction|]. cbn [nonempty].
  rewrite Henv. cbn [bind].
  rewrite (append_env_flags_fold h flag Noop _ _ _
             (mapM_format_noop h flag env_values)).
  cbn [bind]. rewrite fold_move_to_end by constructor.
  cbn [filter app].
  rewrite (last_write_wins_map _ _ (format_str_injective flag)).
  apply append_values_part. apply mapM_format_noop.
Qed.

Lemma RegenerateAppendFlag_by_value_witness :
  let h := Fixtures.linux [("GYP_DEFINES", "A B A")] [] [] in
  let on := {| use_environment := true; depth := VStr ".";
               getattr := fun _ => VNone; regeneration_metadata := [] |} in
  RegenerateAppendFlag h "--define" (VList ["B"]) Noop (Some "GYP_DEFINES") on
  = Ok ["--define=B"; "--define=A"; "--define=B"].
Proof.
  cbv zeta.
  apply (RegenerateAppendFlag_by_value
           (Fixtures.linux [("GYP_DEFINES", "A B A")] [] [])
           "--define" "GYP_DEFINES"
           {| use_environment := true; depth := VStr ".";
              getattr := fun _ => VNone; regeneration_metadata := [] |}
           ["A"; "B"; "A"] ["B"]); try reflexivity.
  discriminate.
Defined.

(** ** The locator and the tools *)

Lemma prologue_default (h : Host) (st : Locator.Store) :
  fst (fst (Locator.prologue h st None)) = st.
Proof.
  unfold Locator.prologue.
  destruct (Py.startswith (sys_platform h) "win"); reflexivity.
Qed.

Lemma prologue_shared (h : Host) (st : Locator.Store) (paths : Locator.ref) :
  Locator.prologue h st (Some paths)
  = if Py.startswith (sys_platform h) "win"
    then (Locator.store_set st paths (os_curdir h :: st paths),
          Locator.Shared paths,
          Py.split (os_pathsep h) (os_getenv h "PATHEXT" EmptyString))
    else (st, Locator.Shared paths, [EmptyString]).
Proof.
  unfold Locator.prologue.
  destruct (Py.startswith (sys_platform h) "win"); reflexivity.
Qed.

(** X9. With the default search path, no list of the caller is written
    to, on a Windows host either: the list the current directory is put
    in front of is the one just made from [PATH]. *)
Theorem find_executables_default_keeps_store (h : Host)
  (st : Locator.Store) (names : Locator.ref) (fuel : nat) :
  let '(st0, g) := Locator.find_executables st names None in
  fst (fst (Locator.next h st0 g)) = st
  /\ fst (fst (Locator.drain h fuel st0 g)) = st.
Proof.
  cbn [Locator.find_executables].
  pose proof (next_store h st (Locator.Created names None)) as Hs.
  cbn beta iota in Hs. rewrite prologue_default in Hs.
  split; [exact Hs|].
  destruct fuel as [|fuel]; [reflexivity|].
  cbn [Locator.drain].
  pose proof (next_not_created h st (Locator.Created names None)) as Hc.
  destruct (Locator.next h st (Locator.Created names None))
    as [[st' g'] [path|]]; cbn [fst snd] in *.
  - pose proof (drain_store h fuel st' g' Hc) as Hd.
    destruct (Locator.drain h fuel st' g') as [[st'' g''] found].
    cbn [fst] in *. rewrite Hd. exact Hs.
  - exact Hs.
Qed.

Lemma flat_map_head {A B : Type} (f : A -> list B) (l : list A) (x : B)
  (r : list B) :
  flat_map f l = x :: r ->
  exists l1 a l2,
    l = l1 ++ a :: l2 /\ (forall b, In b l1 -> f b = []) /\ In x (f a).
Proof.
  induction l as [|a l IH]; [discriminate|].
  cbn [flat_map]. destruct (f a) as [|y ys] eqn:Hfa.
  - cbn [app]. intros H. destruct (IH H) as [l1 [a' [l2 [-> [Hl1 Hx]]]]].
    exists (a :: l1), a', l2. split; [reflexivity|]. split; [|exact Hx].
    intros b [<-|Hb]; [exact Hfa|apply Hl1; exact Hb].
  - cbn [app]. intros H. injection H as -> _.
    exists [], a, l. split; [reflexivity|]. split; [intros b []|].
    rewrite Hfa. left. reflexivity.
Qed.

Lemma flat_map_nil {A B : Type} (f : A -> list B) (l : list A) :
  flat_map f l = [] <-> forall a, In a l -> f a = [].
Proof.
  induction l as [|a l IH]; [split; [intros _ b []|reflexivity]|].
  cbn [flat_map]. split.
  - intros H. apply app_eq_nil in H. destruct H as [Ha Hl].
    intros b [<-|Hb]; [exact Ha|apply (proj1 IH Hl b Hb)].
  - intros H. rewrite (H a (or_introl eq_refl)). cbn [app].
    apply IH. intros b Hb. apply H. right. exact Hb.
Qed.

Lemma hits_nil (h : Host) (name prefix : string) (exts : list string) :
  Locator.hits h name prefix exts = [] <->
  forall suffix, In suffix exts ->
    os_access h (os_path_join h prefix name ++ suffix) = false.
Proof.
  unfold Locator.hits. induction exts as [|s exts IH].
  - split; [intros _ x []|reflexivity].
  - cbn [map filter].
    destruct (os_access h (os_path_join h prefix name ++ s)) eqn:Hacc.
    + split; [discriminate|].
      intros H. rewrite (H s (or_introl eq_refl)) in Hacc. discriminate.
    + rewrite IH. split.
      * intros H x [<-|Hx]; [exact Hacc|apply H; exact Hx].
      * intros H x Hx. apply H. right. exact Hx.
Qed.

Lemma hits_In (h : Host) (name prefix : string) (exts : list string)
  (path : string) :
  In path (Locator.hits h name prefix exts) <->
  exists suffix, In suffix exts
                 /\ path = (os_path_join h prefix name ++ suffix)%string
                 /\ os_access h path = true.
Proof.
  unfold Locator.hits. rewrite filter_In, in_map_iff. split.
  - intros [[suffix [<- Hs]] Hacc]. exists suffix. auto.
  - intros [suffix [Hs [-> Hacc]]]. split; [|exact Hacc].
    exists suffix. auto.
Qed.

(** X10. What [gyp_main] takes as the tool, the first path of the
    generator, is the first in the order of the names: no name before
    the one found has an executable candidate in any directory.  It is
    [None] exactly when no candidate at all exists and is executable. *)
Theorem first_found_is_first (h : Host) (st : Locator.Store)
  (names : Locator.ref) (paths : option Locator.ref) :
  let '(st', _, found) := Locator.first_found h st names paths in
  let '(st1, pl, exts) := Locator.prologue h st paths in
  let inaccessible name :=
    forall prefix suffix,
      In prefix (Locator.read st1 pl) -> In suffix exts ->
      os_access h (os_path_join h prefix name ++ suffix) = false in
  st' = st1
  /\ (found = None <-> forall name, In name (st1 names) -> inaccessible name)
  /\ (forall path, found = Some path ->
        exists before name after,
          st1 names = before ++ name :: after
          /\ (forall n, In n before -> inaccessible n)
          /\ exists prefix suffix,
               In prefix (Locator.read st1 pl) /\ In suffix exts
               /\ path = (os_path_join h prefix name ++ suffix)%string
               /\ os_access h path = true).
Proof.
  unfold Locator.first_found. cbn [Locator.find_executables].
  pose proof (next_pending h st (Locator.Created names paths)) as Hp.
  pose proof (next_store h st (Locator.Created names paths)) as Hs.
  cbn beta iota in Hs.
  destruct (Locator.next h st (Locator.Created names paths))
    as [[st' g'] found]. cbn [fst] in Hs.
  cbn [Locator.pending] in Hp.
  destruct (Locator.prologue h st paths) as [[st1 pl] exts].
  cbn [fst] in Hs. cbv zeta. split; [exact Hs|].
  assert (Hnil : forall name,
             flat_map (fun prefix => Locator.hits h name prefix exts)
               (Locator.read st1 pl) = [] <->
             forall prefix suffix,
               In prefix (Locator.read st1 pl) -> In suffix exts ->
               os_access h (os_path_join h prefix name ++ suffix) = false).
  { intros name. rewrite flat_map_nil. split.
    - intros H prefix suffix Hpre Hsuf.
      apply (proj1 (hits_nil h name prefix exts) (H prefix Hpre) suffix Hsuf).
    - intros H prefix Hpre. apply hits_nil. intros suffix Hsuf.
      apply H; assumption. }
  destruct found as [path|].
  - split.
    + split; [discriminate|]. intros Hall. exfalso.
      assert (Hempty : Locator.name_major h exts (Locator.read st1 pl)
                         (st1 names) = []).
      { unfold Locator.name_major. apply flat_map_nil.
        intros name Hname. apply Hnil. apply Hall. exact Hname. }
      rewrite Hempty in Hp. discriminate Hp.
    + intros path' Heq. injection Heq as <-.
      unfold Locator.name_major in Hp.
      destruct (flat_map_head _ _ _ _ Hp)
        as [before [name [after [Hnames [Hbefore Hin]]]]].
      exists before, name, after. split; [exact Hnames|]. split.
      * intros n Hn. apply Hnil. apply Hbefore. exact Hn.
      * apply in_flat_map in Hin. destruct Hin as [prefix [Hpre Hin]].
        apply hits_In in Hin. destruct Hin as [suffix [Hsuf [Heq Hacc]]].
        exists prefix, suffix. auto.
  - destruct Hp as [Hp _]. split.
    + split; [|reflexivity]. intros _ name Hname.
      apply Hnil. unfold Locator.name_major in Hp.
      apply (proj1 (flat_map_nil _ _) Hp name Hname).
    + intros path Heq. discriminate Heq.
Qed.

Section ToolFacts.

Variable h : Host.

Lemma iter_drain_generator (fuel : nat) (st : Locator.Store)
  (g : Locator.Generator) :
  iter_drain h fuel st (GeneratorIter g)
  = let '(st', g', found) := Locator.drain h fuel st g in
    (st', GeneratorIter g', found).
Proof.
  revert st g. induction fuel as [|fuel IH]; intros st g; [reflexivity|].
  cbn [iter_drain iter_next Locator.drain].
  destruct (Locator.next h st g) as [[st' g'] [path|]]; [|reflexivity].
  rewrite IH.
  destruct (Locator.drain h fuel st' g') as [[st'' g''] found].
  reflexivity.
Qed.

Lemma name_major_app (exts pl a b : list string) :
  Locator.name_major h exts pl (a ++ b)
  = Locator.name_major h exts pl a ++ Locator.name_major h exts pl b.
Proof. unfold Locator.name_major. apply flat_map_app. Qed.

Lemma prologue_keeps_other (st : Locator.Store) (paths r : Locator.ref) :
  r <> paths ->
  fst (fst (Locator.prologue h st (Some paths))) r = st r.
Proof.
  intros Hne. rewrite prologue_shared.
  destruct (Py.startswith (sys_platform h) "win"); [|reflexivity].
  cbn [fst]. unfold Locator.store_set.
  destruct (Nat.eqb r paths) eqn:He; [|reflexivity].
  apply Nat.eqb_eq in He. contradiction.
Qed.

Lemma store_set_same (st : Locator.Store) (r : Locator.ref)
  (l : list string) : Locator.store_set st r l r = l.
Proof. unfold Locator.store_set. rewrite Nat.eqb_refl. reflexivity. Qed.

Lemma store_set_other (st : Locator.Store) (r r' : Locator.ref)
  (l : list string) : r' <> r -> Locator.store_set st r l r' = st r'.
Proof.
  intros Hne. unfold Locator.store_set.
  destruct (Nat.eqb r' r) eqn:He; [|reflexivity].
  apply Nat.eqb_eq in He. contradiction.
Qed.

(** Draining a search for the names [ns], newly stored at [fresh]. *)
Lemma drain_fresh_names (st : Locator.Store) (fresh paths : Locator.ref)
  (ns : list string) (fuel : nat) :
  fresh <> paths ->
  let st0 := Locator.store_set st fresh ns in
  let '(st', pl, exts) := Locator.prologue h st0 (Some paths) in
  let found := Locator.name_major h exts (Locator.read st' pl) ns in
  length found < fuel ->
  Locator.drain h fuel st0 (Locator.Created fresh (Some paths))
  = (st', Locator.Finished, found).
Proof.
  intros Hne st0.
  pose proof (prologue_keeps_other st0 paths fresh Hne) as Hkeep.
  pose proof (next_store h st0 (Locator.Created fresh (Some paths))) as Hs.
  cbn beta iota in Hs.
  pose proof (drain_pending h fuel st0
                (Locator.Created fresh (Some paths))) as Hd.
  cbn [Locator.pending] in Hd.
  destruct (Locator.prologue h st0 (Some paths)) as [[st' pl] exts].
  cbn [fst] in Hkeep, Hs. cbv zeta. intros Hlen.
  unfold st0 in Hkeep. rewrite store_set_same in Hkeep.
  rewrite Hkeep in Hd. rewrite Hd by exact Hlen. rewrite Hs. reflexivity.
Qed.

End ToolFacts.

(** X11. [find_cc], [find_cxx], [find_ar] and [find_link]: when the
    environment has the variable, its value is the one candidate, whether
    or not such a file exists, and nothing is searched or written; when
    it has not, the candidates are those of the names with the host in
    front, in every directory, and after them those of the plain names. *)
Theorem find_tool_candidates (variable : string) (x : list string)
  (h : Host) (st : Locator.Store) (fresh paths : Locator.ref)
  (host : option Triple.t) (fuel : nat) :
  (forall value,
      os_environ h variable = Some value ->
      2 <= fuel ->
      let '(st0, it) := find_tool variable x h st fresh host (Some paths) in
      st0 = st
      /\ iter_drain h fuel st0 it = (st, TupleIter [], [value]))
  /\ (os_environ h variable = None ->
      fresh <> paths ->
      let '(st0, it) := find_tool variable x h st fresh host (Some paths) in
      let '(st', pl, exts) := Locator.prologue h st0 (Some paths) in
      let found :=
        Locator.name_major h exts (Locator.read st' pl) (host_prefixed host x)
        ++ Locator.name_major h exts (Locator.read st' pl) x in
      length found < fuel ->
      iter_drain h fuel st0 it
      = (st', GeneratorIter Locator.Finished, found)).
Proof.
  split.
  - intros value Hset Hfuel. unfold find_tool. rewrite Hset.
    split; [reflexivity|].
    destruct fuel as [|[|fuel]]; [lia|lia|reflexivity].
  - intros Hunset Hne. unfold find_tool. rewrite Hunset.
    cbn [Locator.find_executables].
    pose proof (drain_fresh_names h st fresh paths
                  (host_prefixed host x ++ x) fuel Hne) as Hd.
    cbv zeta in Hd.
    destruct (Locator.prologue h _ (Some paths)) as [[st' pl] exts].
    cbv zeta. rewrite <- name_major_app. intros Hlen.
    rewrite iter_drain_generator, (Hd Hlen). reflexivity.
Qed.

Lemma find_tool_candidates_witness :
  let set := Fixtures.linux [("CC", "clang")] ["/bin/gcc"] [] in
  let unset := Fixtures.linux [] ["/bin/gcc"; "/opt/arm-linux-gnu-gcc"] [] in
  let st := Fixtures.store [] ["/bin"; "/opt"] in
  let host := Some (Triple.Make "arm" "linux" "gnu") in
  (let '(st0, it) := find_cc set st 2 host (Some 1) in
   snd (iter_drain set 2 st0 it) = ["clang"])
  /\ (let '(st0, it) := find_cc unset st 2 host (Some 1) in
      snd (iter_drain unset 3 st0 it)
      = ["/opt/arm-linux-gnu-gcc"; "/bin/gcc"]).
Proof.
  cbv zeta.
  set (st := Fixtures.store [] ["/bin"; "/opt"]).
  set (host := Some (Triple.Make "arm" "linux" "gnu")).
  set (names := ["gcc"; "gcc-4.8"; "gcc-4.7"; "gcc-4.6"]).
  split.
  - pose proof (proj1 (find_tool_candidates "CC" names
                         (Fixtures.linux [("CC", "clang")] ["/bin/gcc"] [])
                         st 2 1 host 2) "clang" eq_refl (le_n 2)) as H.
    change (find_cc (Fixtures.linux [("CC", "clang")] ["/bin/gcc"] [])
              st 2 host (Some 1))
      with (st, TupleIter ["clang"]).
    change (find_tool "CC" names
              (Fixtures.linux [("CC", "clang")] ["/bin/gcc"] [])
              st 2 host (Some 1))
      with (st, TupleIter ["clang"]) in H.
    cbv beta iota in H. destruct H as [_ H]. rewrite H. reflexivity.
  - pose proof (proj2 (find_tool_candidates "CC" names
                         (Fixtures.linux []
                            ["/bin/gcc"; "/opt/arm-linux-gnu-gcc"] [])
                         st 2 1 host 3) eq_refl ltac:(discriminate)) as H.
    change (find_cc
              (Fixtures.linux [] ["/bin/gcc"; "/opt/arm-linux-gnu-gcc"] [])
              st 2 host (Some 1))
      with (Locator.store_set st 2 (host_prefixed host names ++ names),
            GeneratorIter (Locator.Created 2 (Some 1))).
    change (find_tool "CC" names
              (Fixtures.linux [] ["/bin/gcc"; "/opt/arm-linux-gnu-gcc"] [])
              st 2 host (Some 1))
      with (Locator.store_set st 2 (host_prefixed host names ++ names),
            GeneratorIter (Locator.Created 2 (Some 1))) in H.
    cbv beta iota in H. rewrite prologue_shared in H.
    change (Py.startswith
              (sys_platform
                 (Fixtures.linux [] ["/bin/gcc"; "/opt/arm-linux-gnu-gcc"] []))
              "win") with false in H.
    cbv beta iota zeta in H. cbv beta iota.
    rewrite H; [reflexivity|]. vm_compute. lia.
Defined.

(** X12. [find_make] looks for msbuild alone on a Windows host.  On any
    other host it yields every ninja of the search path before any gmake,
    and every gmake before any make: a ninja in the last directory is
    preferred to a make in the first. *)
Theorem find_make_preference (h : Host) (st : Locator.Store)
  (fresh paths : Locator.ref) (host : option Triple.t) (fuel : nat) :
  fresh <> paths ->
  let '(st0, it) := find_make h st fresh host (Some paths) in
  let '(st', pl, exts) := Locator.prologue h st0 (Some paths) in
  let found names := Locator.name_major h exts (Locator.read st' pl) names in
  if Py.startswith (sys_platform h) "win" then
    length (found ["msbuild"]) < fuel ->
    iter_drain h fuel st0 it
    = (st', GeneratorIter Locator.Finished, found ["msbuild"])
  else
    length (found ["ninja"] ++ found ["gmake"] ++ found ["make"]) < fuel ->
    iter_drain h fuel st0 it
    = (st', GeneratorIter Locator.Finished,
       found ["ninja"] ++ found ["gmake"] ++ found ["make"]).
Proof.
  intros Hne. unfold find_make.
  destruct (Py.startswith (sys_platform h) "win") eqn:Hwin;
    cbn [Locator.find_executables].
  - pose proof (drain_fresh_names h st fresh paths ["msbuild"] fuel Hne)
      as Hd. cbv zeta in Hd.
    destruct (Locator.prologue h _ (Some paths)) as [[st' pl] exts].
    cbv zeta. intros Hlen.
    rewrite iter_drain_generator, (Hd Hlen). reflexivity.
  - pose proof (drain_fresh_names h st fresh paths
                  ["ninja"; "gmake"; "make"] fuel Hne) as Hd.
    cbv zeta in Hd.
    destruct (Locator.prologue h _ (Some paths)) as [[st' pl] exts].
    cbv zeta.
    rewrite <- !(name_major_app h exts (Locator.read st' pl)).
    intros Hlen.
    rewrite iter_drain_generator, (Hd Hlen). reflexivity.
Qed.

Lemma find_make_preference_witness :
  let h := Fixtures.linux [] ["/bin/make"; "/opt/ninja"] [] in
  let st := Fixtures.store [] ["/bin"; "/opt"] in
  let '(st0, it) := find_make h st 2 None (Some 1) in
  snd (iter_drain h 3 st0 it) = ["/opt/ninja"; "/bin/make"].
Proof.
  cbv zeta.
  set (h := Fixtures.linux [] ["/bin/make"; "/opt/ninja"] []).
  set (st := Fixtures.store [] ["/bin"; "/opt"]).
  pose proof (find_make_preference h st 2 1 None 3 ltac:(discriminate))
    as H.
  change (find_make h st 2 None (Some 1))
    with (Locator.store_set st 2 ["ninja"; "gmake"; "make"],
          GeneratorIter (Locator.Created 2 (Some 1))) in H |- *.
  cbv beta iota in H. rewrite prologue_shared in H.
  change (Py.startswith (sys_platform h) "win") with false in H.
  cbv beta iota zeta in H. cbv beta iota.
  rewrite H; [reflexivity|]. vm_compute. lia.
Defined.

Lemma find_tool_next_paths (variable : string) (x : list string) (h : Host)
  (st st0 st1 : Locator.Store) (fresh paths : Locator.ref)
  (host : option Triple.t) (it it1 : Iterator) (found : option string) :
  fresh <> paths ->
  find_tool variable x h st fresh host (Some paths) = (st0, it) ->
  iter_next h st0 it = (st1, it1, found) ->
  st1 paths
  = match os_environ h variable with
    | Some _ => st paths
    | None => if Py.startswith (sys_platform h) "win"
              then os_curdir h :: st paths
              else st paths
    end
  /\ (forall value, os_environ h variable = Some value ->
                    found = Some value).
Proof.
  intros Hne Hfind Hnext. unfold find_tool in Hfind.
  destruct (os_environ h variable) as [value|].
  - injection Hfind as <- <-. cbn [iter_next] in Hnext.
    injection Hnext as <- _ <-. split; [reflexivity|].
    intros v Hv. injection Hv as <-. reflexivity.
  - cbn [Locator.find_executables] in Hfind. injection Hfind as <- <-.
    cbn [iter_next] in Hnext.
    pose proof (next_store h
                  (Locator.store_set st fresh (host_prefixed host x ++ x))
                  (Locator.Created fresh (Some paths))) as Hs.
    cbn beta iota in Hs.
    destruct (Locator.next h _ (Locator.Created fresh (Some paths)))
      as [[st' g'] r]. injection Hnext as <- _ _. cbn [fst] in Hs.
    split; [|intros v Hv; discriminate Hv].
    rewrite Hs, prologue_shared.
    destruct (Py.startswith (sys_platform h) "win"); cbn [fst].
    + rewrite store_set_same. rewrite store_set_other by auto.
      reflexivity.
    + apply store_set_other. auto.
Qed.

(** X13. The four searches of [gyp_main] are given one list.  On a
    Windows host each search that is made, one for each of CC, CXX, AR
    and LINK the environment does not have, puts the current directory
    in front of it once more; on another host the list stays as it is.
    A variable the environment has gives the tool, unsearched. *)
Theorem gyp_main_tools_paths (h : Host) (st : Locator.Store)
  (fresh paths : Locator.ref) (host : option Triple.t) :
  paths < fresh ->
  let '(st', (cc_path, cxx_path, ar_path, link_path)) :=
    gyp_main_tools h st fresh host paths in
  st' paths
  = (if Py.startswith (sys_platform h) "win"
     then repeat (os_curdir h)
            (length (unset_variables h ["CC"; "CXX"; "AR"; "LINK"]))
     else [])
    ++ st paths
  /\ (forall value, os_environ h "CC" = Some value -> cc_path = Some value)
  /\ (forall value, os_environ h "CXX" = Some value -> cxx_path = Some value)
  /\ (forall value, os_environ h "AR" = Some value -> ar_path = Some value)
  /\ (forall value, os_environ h "LINK" = Some value ->
                    link_path = Some value).
Proof.
  intros Hlt. unfold gyp_main_tools.
  destruct (find_cc h st fresh host (Some paths)) as [s0 i0] eqn:F1.
  destruct (iter_next h s0 i0) as [[s1 i1] cc_path] eqn:N1.
  destruct (find_cxx h s1 (1 + fresh) host (Some paths)) as [s2 i2] eqn:F2.
  destruct (iter_next h s2 i2) as [[s3 i3] cxx_path] eqn:N2.
  destruct (find_ar h s3 (2 + fresh) host (Some paths)) as [s4 i4] eqn:F3.
  destruct (iter_next h s4 i4) as [[s5 i5] ar_path] eqn:N3.
  destruct (find_link h s5 (3 + fresh) host (Some paths)) as [s6 i6] eqn:F4.
  destruct (iter_next h s6 i6) as [[s7 i7] link_path] eqn:N4.
  destruct (find_tool_next_paths _ _ h st s0 s1 fresh paths host i0 i1
              cc_path ltac:(lia) F1 N1) as [P1 V1].
  destruct (find_tool_next_paths _ _ h s1 s2 s3 (1 + fresh) paths host i2 i3
              cxx_path ltac:(lia) F2 N2) as [P2 V2].
  destruct (find_tool_next_paths _ _ h s3 s4 s5 (2 + fresh) paths host i4 i5
              ar_path ltac:(lia) F3 N3) as [P3 V3].
  destruct (find_tool_next_paths _ _ h s5 s6 s7 (3 + fresh) paths host i6 i7
              link_path ltac:(lia) F4 N4) as [P4 V4].
  split; [|repeat split; assumption].
  rewrite P4, P3, P2, P1. unfold unset_variables. cbn [filter].
  destruct (os_environ h "CC"), (os_environ h "CXX"),
    (os_environ h "AR"), (os_environ h "LINK"),
    (Py.startswith (sys_platform h) "win"); reflexivity.
Qed.

Lemma gyp_main_tools_paths_witness :
  let h := Fixtures.windows [("PATHEXT", ".exe"); ("AR", "lib.exe")]
             ["C:\bin\gcc.exe"] [] in
  let st := Fixtures.store [] ["C:\bin"] in
  let '(st', (cc_path, cxx_path, ar_path, link_path)) :=
    gyp_main_tools h st 2 None 1 in
  st' 1 = ["."; "."; "."; "C:\bin"]
  /\ cc_path = Some "C:\bin\gcc.exe" /\ ar_path = Some "lib.exe".
Proof.
  cbv zeta.
  pose proof (gyp_main_tools_paths
                (Fixtures.windows [("PATHEXT", ".exe"); ("AR", "lib.exe")]
                   ["C:\bin\gcc.exe"] [])
                (Fixtures.store [] ["C:\bin"]) 2 1 None
                ltac:(lia)) as H.
  destruct (gyp_main_tools _ _ 2 None 1)
    as [st' [[[cc_path cxx_path] ar_path] link_path]] eqn:Ht.
  destruct H as [Hp [_ [_ [Har _]]]].
  split; [exact Hp|]. split; [|apply Har; reflexivity].
  vm_compute in Ht. injection Ht as _ Hcc _ _ _. symmetry. exact Hcc.
Defined.

(** ** Versions and kinds of the identifier *)

Lemma split_length (sep : ascii) (s : string) :
  length (Py.split sep s) = S (Py.count sep s).
Proof.
  induction s as [|c r IH]; [reflexivity|].
  cbn [Py.split Py.count]. destruct (Ascii.eqb c sep).
  - cbn [length]. rewrite IH. reflexivity.
  - destruct (Py.split sep r); [discriminate IH|]. exact IH.
Qed.

(** The parts of a text of digits and dots are texts of digits. *)
Lemma split_version_chars (s : string) :
  all_chars Re.is_version_char s = true ->
  Forall (fun part => all_chars Py.is_digit part = true) (Py.split "." s).
Proof.
  induction s as [|c r IH]; intros H.
  - repeat constructor.
  - cbn [all_chars] in H. apply andb_true_iff in H. destruct H as [Hc Hr].
    specialize (IH Hr). cbn [Py.split].
    unfold Re.is_version_char in Hc.
    destruct (Ascii.eqb c ".") eqn:Hdot.
    + constructor; [reflexivity|exact IH].
    + rewrite orb_false_r in Hc.
      destruct (Py.split "." r) as [|p ps].
      * constructor; [|constructor]. cbn [all_chars]. rewrite Hc. reflexivity.
      * inversion IH as [|p' ps' Hp Hps]; subst.
        constructor; [|exact Hps]. cbn [all_chars]. rewrite Hc, Hp.
        reflexivity.
Qed.

Lemma int_of_digits (s : string) :
  all_chars Py.is_digit s = true ->
  (s = EmptyString /\ Py.int s = Raise ValueError)
  \/ (s <> EmptyString /\ exists z, Py.int s = Ok z /\ (0 <= z)%Z).
Proof.
  intros H. rewrite (int_digits s H). destruct s as [|c r].
  - left. split; reflexivity.
  - right. split; [discriminate|].
    destruct (digits_value_all (String c r) 0 H) as [z Hz].
    exists z. unfold Py.unsigned_int. rewrite Hz. split; [reflexivity|].
    apply (digits_value_nonneg (String c r) 0 z); [lia|exact Hz].
Qed.

Lemma mapM_int_digits (parts : list string) :
  Forall (fun part => all_chars Py.is_digit part = true) parts ->
  (In EmptyString parts -> mapM Py.int parts = Raise ValueError)
  /\ (~ In EmptyString parts ->
      exists v, mapM Py.int parts = Ok v
                /\ Forall (fun z => (0 <= z)%Z) v
                /\ length v = length parts).
Proof.
  induction parts as [|p parts IH]; intros Hall.
  - split; [intros []|]. intros _. exists []. repeat split. constructor.
  - inversion Hall as [|p' parts' Hp Hparts]; subst.
    destruct (IH Hparts) as [IHbad IHgood]. cbn [mapM].
    destruct (int_of_digits p Hp) as [[-> Hi]|[Hne [z [Hi Hz]]]];
      rewrite Hi; cbn [bind].
    + split; [reflexivity|]. intros Hn. exfalso. apply Hn. left. reflexivity.
    + split.
      * intros [Heq|Hin]; [contradiction|].
        rewrite (IHbad Hin). reflexivity.
      * intros Hn.
        destruct IHgood as [v [Hv [Hpos Hlen]]].
        { intros Hin. apply Hn. right. exact Hin. }
        exists (z :: v). rewrite Hv. cbn [bind length].
        repeat split; [constructor; assumption|rewrite Hlen; reflexivity].
Qed.

Lemma Version_of_version_text_parts (text : string) :
  all_chars Re.is_version_char text = true ->
  (In EmptyString (Py.split "." text) ->
   Version_of_text text = Raise ValueError)
  /\ (~ In EmptyString (Py.split "." text) ->
      exists v, Version_of_text text = Ok v
                /\ Forall (fun z => (0 <= z)%Z) v
                /\ length v = S (Py.count "." text)).
Proof.
  intros H. unfold Version_of_text.
  destruct (mapM_int_digits _ (split_version_chars text H)) as [Hbad Hgood].
  split; [exact Hbad|].
  intros Hn. destruct (Hgood Hn) as [v [Hv [Hpos Hlen]]].
  exists v. rewrite split_length in Hlen. auto.
Qed.

(** X14. Reading a version from a text of digits and dots, as the
    patterns of the identifier give it: when no part between the dots is
    empty, the version has one component more than the text has dots,
    none of them negative; when a part is empty, as with a dot at an end
    or two dots in a row, reading raises [ValueError]. *)
Theorem Version_of_version_text (text : string) :
  all_chars Re.is_version_char text = true ->
  (In EmptyString (Py.split "." text) ->
   Version_of_text text = Raise ValueError)
  /\ (~ In EmptyString (Py.split "." text) ->
      exists v, Version_of_text text = Ok v
                /\ Forall (fun z => (0 <= z)%Z) v
                /\ length v = S (Py.count "." text)).
Proof. apply Version_of_version_text_parts. Qed.

Lemma Version_of_version_text_witness :
  Version_of_text "4.8." = Raise ValueError
  /\ exists v, Version_of_text "19.00.24215" = Ok v
               /\ Forall (fun z => (0 <= z)%Z) v
               /\ length v = 3.
Proof.
  split.
  - apply (proj1 (Version_of_version_text "4.8." eq_refl)).
    vm_compute. right. right. left. reflexivity.
  - apply (proj2 (Version_of_version_text "19.00.24215" eq_refl)).
    vm_compute. intros [H|[H|[H|[]]]]; discriminate H.
Defined.

Lemma span_all (cls : ascii -> bool) (s : string) :
  all_chars cls (fst (Re.span cls s)) = true.
Proof.
  induction s as [|c r IH]; [reflexivity|].
  cbn [Re.span]. destruct (cls c) eqn:Hc; [|reflexivity].
  destruct (Re.span cls r) as [run rest]. cbn [fst all_chars] in *.
  rewrite Hc, IH. reflexivity.
Qed.

Lemma literal_run_all (literal : string) (cls : ascii -> bool)
  (s run rest : string) :
  Re.literal_run literal cls s = Some (run, rest) ->
  all_chars cls run = true.
Proof.
  unfold Re.literal_run. destruct (Py.strip_prefix literal s) as [r|];
    [|discriminate].
  pose proof (span_all cls r) as Ha.
  destruct (Re.span cls r) as [run' rest']. cbn [fst] in Ha.
  destruct run'; [discriminate|]. intros H. injection H as <- _. exact Ha.
Qed.

Lemma search_multiline_Some {A : Type} (m : string -> option A)
  (s : string) (x : A) :
  Re.search_multiline m s = Some x -> exists s', m s' = Some x.
Proof.
  unfold Re.search_multiline. destruct (m s) eqn:Hm.
  - intros H. injection H as <-. exists s. exact Hm.
  - clear Hm. induction s as [|c r IH]; [discriminate|].
    cbn [Re.search_after_newlines].
    destruct (Ascii.eqb c Py.LF); [|exact IH].
    destruct (m r) eqn:Hr; [|exact IH].
    intros H. injection H as <-. exists r. exact Hr.
Qed.

Lemma msvc_banner_version (s version arch : string) :
  Re.msvc_banner s = Some (version, arch) ->
  all_chars Re.is_version_char version = true.
Proof.
  unfold Re.msvc_banner.
  destruct (Re.literal_run _ Re.is_version_char s) as [[v rest]|] eqn:Hv;
    [|discriminate].
  destruct (Re.literal_run " for " Re.is_word_char rest) as [[a r]|];
    [|discriminate].
  intros H. injection H as <- _. apply (literal_run_all _ _ _ _ _ Hv).
Qed.

Lemma option_map_fst_run (literal : string) (cls : ascii -> bool)
  (s run : string) :
  option_map fst (Re.literal_run literal cls s) = Some run ->
  all_chars cls run = true.
Proof.
  destruct (Re.literal_run literal cls s) as [[r rest]|] eqn:Hr;
    [|discriminate].
  cbn [option_map fst]. intros H. injection H as <-.
  apply (literal_run_all _ _ _ _ _ Hr).
Qed.

Lemma Version_of_text_nonneg (text : string) (v : Version) :
  all_chars Re.is_version_char text = true ->
  Version_of_text text = Ok v -> Forall (fun z => (0 <= z)%Z) v.
Proof.
  intros Hall Hv.
  destruct (Version_of_version_text_parts text Hall) as [Hbad Hgood].
  destruct (in_dec string_dec EmptyString (Py.split "." text)) as [Hin|Hn].
  - rewrite (Hbad Hin) in Hv. discriminate Hv.
  - destruct (Hgood Hn) as [v' [Hv' [Hpos _]]].
    rewrite Hv' in Hv. injection Hv as <-. exact Hpos.
Qed.

(** X15. What the identifier can return.  [identify_cc] returns msvc
    with a triple of os win and env msvc, or gcc with a triple whose arch
    and os hold no dash, or the unknown sentinel, and never a negative
    version component.  [identify_make] returns gmake, with no negative
    component, or ninja, or unknown with the empty version; it never
    returns msbuild. *)
Theorem identify_results (h : Host) (path : string) :
  (forall (kind : string) (version : Version) (target : Triple.t),
      identify_cc h path = Ok (kind, version, target) ->
      Forall (fun z => (0 <= z)%Z) version
      /\ ((kind = "msvc"
           /\ Triple.os target = "win" /\ Triple.env target = "msvc")
          \/ (kind = "gcc"
              /\ Py.count "-" (Triple.arch target) = 0
              /\ Py.count "-" (Triple.os target) = 0)
          \/ (kind = "unknown"
              /\ version = [] /\ target = unknown_triple)))
  /\ (forall (kind : string) (version : Version),
        identify_make h path = Ok (kind, version) ->
        kind <> "msbuild"
        /\ ((kind = "gmake" /\ Forall (fun z => (0 <= z)%Z) version)
            \/ kind = "ninja"
            \/ (kind = "unknown" /\ version = []))).
Proof.
  split.
  - intros kind version target H. unfold identify_cc in H.
    apply bind_Ok in H. destruct H as [[out1 err1] [_ H]].
    destruct (Re.search_multiline Re.msvc_banner err1) as [[m1 m2]|] eqn:Hm.
    + apply bind_Ok in H. destruct H as [v [Hv H]].
      injection H as <- <- <-.
      destruct (search_multiline_Some _ _ _ Hm) as [s' Hs'].
      split; [|left; repeat split].
      apply (Version_of_text_nonneg m1 v); [|exact Hv].
      apply (msvc_banner_version _ _ _ Hs').
    + apply bind_Ok in H. destruct H as [[out2 err2] [_ H]].
      destruct (Re.search_multiline Re.gcc_version err2) as [g1|] eqn:Hg;
        [destruct (Re.search_multiline Re.target_line err2) as [t1|]|].
      * apply bind_Ok in H. destruct H as [v [Hv H]].
        apply bind_Ok in H. destruct H as [t [Ht H]].
        injection H as <- <- <-.
        destruct (search_multiline_Some _ _ _ Hg) as [s' Hs'].
        split.
        -- apply (Version_of_text_nonneg g1 v); [|exact Hv].
           apply (option_map_fst_run _ _ _ _ Hs').
        -- right. left. destruct (parse_Ok _ _ Ht) as [_ [Ha Ho]].
           repeat split; assumption.
      * injection H as <- <- <-. split; [constructor|].
        right. right. repeat split.
      * injection H as <- <- <-. split; [constructor|].
        right. right. repeat split.
  - intros kind version H. unfold identify_make in H.
    apply bind_Ok in H. destruct H as [[out1 err1] [_ H]].
    destruct (Re.gnu_make out1) as [m1|] eqn:Hm.
    + apply bind_Ok in H. destruct H as [v [Hv H]].
      injection H as <- <-. split; [discriminate|]. left.
      split; [reflexivity|].
      apply (Version_of_text_nonneg m1 v); [|exact Hv].
      apply (option_map_fst_run _ _ _ _ Hm).
    + apply bind_Ok in H. destruct H as [[out2 err2] [_ H]].
      destruct (Re.usage_ninja err2).
      * apply bind_Ok in H. destruct H as [v [_ H]].
        injection H as <- <-. split; [discriminate|]. right. left.
        reflexivity.
      * injection H as <- <-. split; [discriminate|]. right. right.
        split; reflexivity.
Qed.

Lemma identify_results_witness :
  let h :=
    Fixtures.linux [] []
      [(["ninja"; "--version"], (Fixtures.lines ["-1.5"], EmptyString));
       (["ninja"; "--help"], (EmptyString, "usage: ninja [options]"))] in
  identify_make h "ninja" = Ok ("ninja", [-1; 5]%Z)
  /\ "ninja" <> "msbuild".
Proof.
  cbv zeta. split; [reflexivity|].
  apply (proj2 (identify_results
                  (Fixtures.linux [] []
                     [(["ninja"; "--version"],
                       (Fixtures.lines ["-1.5"], EmptyString));
                      (["ninja"; "--help"],
                       (EmptyString, "usage: ninja [options]"))])
                  "ninja") "ninja" [-1; 5]%Z).
  reflexivity.
Defined.

(** ** Android hosts *)

Lemma substring_prefix (s r : string) :
  substring 0 (String.length s) (s ++ r) = s.
Proof.
  induction s as [|c s IH]; [destruct r; reflexivity|].
  cbn [String.length append substring]. rewrite IH. reflexivity.
Qed.

Lemma length_app_str (a b : string) :
  String.length (a ++ b) = String.length a + String.length b.
Proof.
  induction a as [|c a IH]; [reflexivity|].
  cbn [append String.length]. rewrite IH. reflexivity.
Qed.

(** Taking the last four characters off takes a [-gcc] off. *)
Lemma drop_last4_gcc (s : string) : drop_last4 (s ++ "-gcc") = s.
Proof.
  unfold drop_last4. rewrite length_app_str. cbn [String.length].
  replace (String.length s + 4 - 4) with (String.length s) by lia.
  apply substring_prefix.
Qed.

Lemma parse_few (s : string) :
  Py.count "-" s < 2 -> Triple.parse s = Raise TypeError.
Proof.
  intros Hlt. unfold Triple.parse.
  pose proof (split_max_length "-" s 2) as Hlen.
  destruct (Py.split_max "-" s 2) as [|x [|y [|z [|w l]]]];
    cbn [length] in Hlen; try reflexivity; lia.
Qed.

Lemma parse_raises (s : string) (e : exn) :
  Triple.parse s = Raise e -> e = TypeError /\ Py.count "-" s < 2.
Proof.
  intros H.
  destruct (le_lt_dec 2 (Py.count "-" s)) as [Hge|Hlt].
  - exfalso.
    destruct (first_cut "-" s ltac:(lia)) as [a [r [-> [Ha Hr]]]].
    destruct (first_cut "-" r ltac:(lia)) as [o [e' [-> [Ho _]]]].
    change (a ++ String "-" (o ++ String "-" e'))%string
      with (a ++ "-" ++ o ++ "-" ++ e')%string in H.
    rewrite (parse_cut a o e' Ha Ho) in H. discriminate H.
  - rewrite (parse_few s Hlt) in H. injection H as <-. auto.
Qed.

Lemma mapM_In_Ok {A B : Type} (f : A -> Res B) (l : list A) (rs : list B)
  (x : A) :
  mapM f l = Ok rs -> In x l -> exists r, f x = Ok r /\ In r rs.
Proof.
  revert rs. induction l as [|a l IH]; intros rs H Hin; [destruct Hin|].
  cbn [mapM] in H. apply bind_Ok in H. destruct H as [y [Hy H]].
  apply bind_Ok in H. destruct H as [ys [Hys H]]. injection H as <-.
  destruct Hin as [<-|Hin].
  - exists y. split; [exact Hy|left; reflexivity].
  - destruct (IH ys Hys Hin) as [r [Hr Hrs]].
    exists r. split; [exact Hr|right; exact Hrs].
Qed.

Lemma mapM_parse (names : list string) :
  (exists name, In name names /\ Py.count "-" name < 2) ->
  mapM Triple.parse names = Raise TypeError.
Proof.
  induction names as [|n names IH]; intros [name [Hin Hlt]];
    [destruct Hin|].
  cbn [mapM]. destruct (Triple.parse n) as [t|e] eqn:Hn.
  - cbn [bind]. destruct Hin as [<-|Hin].
    + rewrite (parse_few n Hlt) in Hn. discriminate Hn.
    + rewrite IH; [reflexivity|]. exists name. auto.
  - destruct (parse_raises n e Hn) as [-> _]. reflexivity.
Qed.

Lemma mapM_parse_Ok (names : list string) :
  (forall name, In name names -> 2 <= Py.count "-" name) ->
  exists ts, mapM Triple.parse names = Ok ts.
Proof.
  induction names as [|n names IH]; intros Hall; [exists []; reflexivity|].
  cbn [mapM]. destruct (Triple.parse n) as [t|e] eqn:Hn.
  - destruct IH as [ts Hts].
    { intros name Hin. apply Hall. right. exact Hin. }
    exists (t :: ts). rewrite Hts. reflexivity.
  - destruct (parse_raises n e Hn) as [_ Hlt].
    specialize (Hall n (or_introl eq_refl)). lia.
Qed.

Lemma mapM_map {A B C : Type} (f : B -> Res C) (g : A -> B) (l : list A) :
  mapM (fun x => f (g x)) l = mapM f (map g l).
Proof.
  induction l as [|a l IH]; [reflexivity|].
  cbn [mapM map]. rewrite IH. reflexivity.
Qed.

(** X16. [android_get_hosts]: with [found] the files the pattern
    matches and the name of a file its base name less the last four
    characters.  When every name has at least two dashes, the result
    holds, once each, exactly the triples the names parse to; a compiler
    [a-o-e-gcc] gives the triple (a, o, e).  When some name has fewer
    than two dashes, the call raises [TypeError]. *)
Theorem android_get_hosts_triples (h : Host) (basename : string -> string)
  (path : string) (build : Triple.t) :
  let found := glob_glob h (android_pattern path build) in
  let name x := drop_last4 (basename x) in
  ((forall x, In x found -> 2 <= Py.count "-" (name x)) ->
   exists hosts,
     android_get_hosts h basename path build = Ok hosts
     /\ NoDup hosts
     /\ forall t, In t hosts <->
                  exists x, In x found /\ Triple.parse (name x) = Ok t)
  /\ ((exists x, In x found /\ Py.count "-" (name x) < 2) ->
      android_get_hosts h basename path build = Raise TypeError)
  /\ (forall a o e x,
        In x found ->
        basename x = (a ++ "-" ++ o ++ "-" ++ e ++ "-gcc")%string ->
        Py.count "-" a = 0 -> Py.count "-" o = 0 ->
        Triple.parse (name x) = Ok (Triple.Make a o e)).
Proof.
  cbv zeta. unfold android_get_hosts.
  set (found := glob_glob h (android_pattern path build)).
  rewrite (mapM_map Triple.parse (fun x => drop_last4 (basename x)) found).
  split; [|split].
  - intros Hall.
    destruct (mapM_parse_Ok (map (fun x => drop_last4 (basename x)) found))
      as [ts Hts].
    { intros n Hin. apply in_map_iff in Hin. destruct Hin as [x [<- Hx]].
      apply Hall. exact Hx. }
    exists (nodup Triple_eq_dec ts). rewrite Hts. cbn [bind].
    split; [reflexivity|]. split; [apply NoDup_nodup|].
    intros t. rewrite nodup_In. split.
    + intros Hin.
      destruct (mapM_Ok_In _ _ _ _ Hts Hin) as [n [Hn Hp]].
      apply in_map_iff in Hn. destruct Hn as [x [<- Hx]].
      exists x. auto.
    + intros [x [Hx Hp]].
      destruct (mapM_In_Ok _ _ _ (drop_last4 (basename x)) Hts)
        as [r [Hr Hin]].
      { apply in_map_iff. exists x. auto. }
      rewrite Hp in Hr. injection Hr as <-. exact Hin.
  - intros [x [Hx Hlt]]. rewrite mapM_parse; [reflexivity|].
    exists (drop_last4 (basename x)). split; [|exact Hlt].
    apply in_map_iff. exists x. auto.
  - intros a o e x _ Hbase Ha Ho. rewrite Hbase.
    replace (a ++ "-" ++ o ++ "-" ++ e ++ "-gcc")%string
      with ((a ++ "-" ++ o ++ "-" ++ e) ++ "-gcc")%string
      by (rewrite !string_app_assoc; reflexivity).
    rewrite drop_last4_gcc. apply parse_cut; assumption.
Qed.

Lemma android_get_hosts_triples_witness :
  let good :=
    with_glob (Fixtures.linux [] [] [])
      [(ndk_bin ++ "arm-linux-androideabi-gcc")%string;
       (ndk_bin ++ "i686-linux-android-gcc")%string;
       (ndk_bin ++ "arm-linux-androideabi-gcc")%string] in
  let bad :=
    with_glob (Fixtures.linux [] [] [])
      [(ndk_bin ++ "arm-linux-androideabi-gcc")%string;
       (ndk_bin ++ "llvm-gcc")%string] in
  let build := Triple.Make "x86_64" "linux" "gnu" in
  (exists hosts,
      android_get_hosts good posix_basename "/ndk" build = Ok hosts
      /\ NoDup hosts
      /\ In (Triple.Make "arm" "linux" "androideabi") hosts
      /\ In (Triple.Make "i686" "linux" "android") hosts)
  /\ android_get_hosts bad posix_basename "/ndk" build = Raise TypeError.
Proof.
  cbv zeta. split.
  - destruct (proj1 (android_get_hosts_triples
                       (with_glob (Fixtures.linux [] [] [])
                          [(ndk_bin ++ "arm-linux-androideabi-gcc")%string;
                           (ndk_bin ++ "i686-linux-android-gcc")%string;
                           (ndk_bin ++ "arm-linux-androideabi-gcc")%string])
                       posix_basename "/ndk"
                       (Triple.Make "x86_64" "linux" "gnu")))
      as [hosts [Hok [Hnd Hin]]].
    { intros x [<-|[<-|[<-|[]]]]; vm_compute; lia. }
    exists hosts. split; [exact Hok|]. split; [exact Hnd|]. split.
    + apply Hin. eexists. split; [left; reflexivity|reflexivity].
    + apply Hin. eexists. split; [right; left; reflexivity|reflexivity].
  - apply (proj1 (proj2 (android_get_hosts_triples
                           (with_glob (Fixtures.linux [] [] [])
                              [(ndk_bin ++ "arm-linux-androideabi-gcc")%string;
                               (ndk_bin ++ "llvm-gcc")%string])
                           posix_basename "/ndk"
                           (Triple.Make "x86_64" "linux" "gnu")))).
    eexists. split; [right; left; reflexivity|]. vm_compute. lia.
Defined.

(** ** Further instances *)

Lemma triple_round_trip_witness :
  Triple.str (Triple.Make "arm" "linux" "androideabi")
  = "arm-linux-androideabi"
  /\ Triple.parse (Triple.str (Triple.Make "arm" "linux" "androideabi"))
     = Ok (Triple.Make "arm" "linux" "androideabi").
Proof.
  pose proof (triple_round_trip (Triple.Make "arm" "linux" "androideabi"))
    as [Hstr [_ Hiff]].
  split.
  - apply (Hstr "arm-linux-androideabi"). reflexivity.
  - apply Hiff. split; reflexivity.
Defined.

Lemma first_found_is_first_witness :
  let h := Fixtures.linux [] ["/bin/gcc"; "/opt/gcc"; "/opt/cc"] [] in
  let st := Fixtures.store ["clang"; "gcc"; "cc"] ["/opt"; "/bin"] in
  let '(_, _, found) := Locator.first_found h st 0 (Some 1) in
  found = Some "/opt/gcc"
  /\ exists before name after,
       st 0 = before ++ name :: after
       /\ (forall n, In n before ->
             forall prefix suffix,
               In prefix (st 1) -> In suffix [EmptyString] ->
               os_access h (os_path_join h prefix n ++ suffix) = false)
       /\ exists prefix suffix,
            In prefix (st 1) /\ In suffix [EmptyString]
            /\ "/opt/gcc" = (os_path_join h prefix name ++ suffix)%string
            /\ os_access h "/opt/gcc" = true.
Proof.
  cbv zeta.
  pose proof (first_found_is_first
                (Fixtures.linux [] ["/bin/gcc"; "/opt/gcc"; "/opt/cc"] [])
                (Fixtures.store ["clang"; "gcc"; "cc"] ["/opt"; "/bin"])
                0 (Some 1)) as H.
  destruct (Locator.first_found _ _ 0 (Some 1)) as [[st' g'] found] eqn:Hf.
  rewrite prologue_shared in H.
  change (Py.startswith
            (sys_platform
               (Fixtures.linux [] ["/bin/gcc"; "/opt/gcc"; "/opt/cc"] []))
            "win") with false in H.
  cbv beta iota zeta in H. destruct H as [_ [_ H]].
  vm_compute in Hf. injection Hf as _ _ <-.
  split; [reflexivity|].
  apply (H "/opt/gcc" eq_refl).
Defined.
